(** * AquaSave: flow simulator and leak detector (src/App.jsx)

    A shallow embedding of the simulation logic of the [App] component:
    the [tick] callback of the simulation loop, the handlers
    [acknowledgeAlert] and [resetDay] and the simulation toggle, together
    with the properties the specification states about them.

    Numbers.  Every JavaScript number is a binary64 value.  The quantities
    that hold small integers (the flow after [Math.floor], the counter in
    [highCountRef], array lengths) are exact in binary64 far below 2^53 and
    are modelled as [Z].  The two fractional computations of the component,
    [Math.random() * span] and the accumulation of [totalLiters], are
    modelled with binary64 rounding (module [Binary64]): a finite double is
    the rational it denotes, and every operation rounds the exact result to
    nearest, ties to even. *)

From Stdlib Require Import String ZArith QArith Qround Qabs Qpower Lia Lqa List Bool Sorted.
Import ListNotations.

(* ------------------------------------------------------------------ *)
(** ** Binary64 arithmetic on finite values *)

Module Binary64.
Local Open Scope Q_scope.

(** 53 significant bits; the smallest subnormal is 2^-1074. *)
Definition prec : Z := 53.
Definition emin : Z := -1074.

(** Largest finite double, (2^53 - 1) * 2^971. *)
Definition max_double : Q := inject_Z ((2 ^ 53 - 1) * 2 ^ 971).

(** [ilog2 x] is the integer [e] with 2^e <= x < 2^(e+1), for 0 < x. *)
Definition ilog2 (x : Q) : Z :=
  let e := (Z.log2 (Qnum x) - Z.log2 (Zpos (Qden x)))%Z in
  if Qle_bool (2 ^ e) x then e else (e - 1)%Z.

(** Nearest integer, ties to the even one. *)
Definition rne (x : Q) : Z :=
  let k := Qfloor (x + (1 # 2)) in
  if Qeq_bool (x + (1 # 2)) (inject_Z k) && Z.odd k then (k - 1)%Z else k.

(** Exponent of the unit in the last place of the binade of [x]
    (clamped at the subnormal exponent). *)
Definition ulp_exp (x : Q) : Z := Z.max (ilog2 x - (prec - 1)) emin.

Definition round_pos (x : Q) : Q :=
  let q := ulp_exp x in Qred (inject_Z (rne (x / 2 ^ q)) * 2 ^ q).

(** Round to nearest, ties to even; the result is in lowest terms, so two
    results that denote the same number are equal.  Overflow to an
    infinity is not modelled: [is_double] below bounds the values, and the
    sums the component forms stay within the bound. *)
Definition round (x : Q) : Q :=
  if Qle_bool 0 x then round_pos x else Qred (- round_pos (- x)).

(** A finite double: a fixed point of [round] within the finite range. *)
Definition is_double (x : Q) : Prop :=
  round x = x /\ Qabs x <= max_double.

(** The JS operators [+], [*], [/] on finite doubles. *)
Definition Fadd (x y : Q) : Q := round (x + y).
Definition Fmul (x y : Q) : Q := round (x * y).
Definition Fdiv (x y : Q) : Q := round (x / y).

(** [Math.floor]; its result is an integer. *)
Definition Math_floor (x : Q) : Z := Qfloor x.

(** What [Math.random()] may return: a double in [0, 1). *)
Definition random_value (r : Q) : Prop :=
  is_double r /\ 0 <= r /\ r < 1.

End Binary64.

(* ------------------------------------------------------------------ *)
(** ** The component *)

Module App.
Import Binary64.
Local Open Scope Z_scope.

(** CONFIG *)
Definition TICK_MS : Z := 2000.
Definition LEAK_THRESHOLD : Z := 8.
Definition LEAK_CONSEC_TICKS : Z := 3.
Definition MAX_POINTS : Z := 30.

(** The component's state: the six [useState] cells and [highCountRef].
    ([runningRef] and [cancelled] belong to the scheduling of the loop.) *)
Record State : Type := mkState {
  currentFlow : Z;
  totalLiters : Q;
  labels : list string;
  series : list Z;
  leakDetected : bool;
  forceLeak : bool;
  highCount : Z
}.

(** State at mount. *)
Definition init : State :=
  {| currentFlow := 0; totalLiters := 0%Q; labels := []; series := [];
     leakDetected := false; forceLeak := false; highCount := 0 |}.

(** [arr.slice(start)]: a negative [start] counts from the end, and the
    start index is clamped to [0, length]. *)
Definition slice {A : Type} (start : Z) (arr : list A) : list A :=
  let len := Z.of_nat (length arr) in
  let k := if start <? 0 then Z.max (len + start) 0 else Z.min start len in
  skipn (Z.to_nat k) arr.

(** The updater given to [setSeries] and [setLabels]:
    [next = [...prev, x]; next.length > MAX_POINTS ? next.slice(-MAX_POINTS) : next]. *)
Definition push_point {A : Type} (prev : list A) (x : A) : list A :=
  let next := prev ++ [x] in
  if Z.of_nat (length next) >? MAX_POINTS then slice (- MAX_POINTS) next else next.

(** [Math.floor(Math.random() * span) + base], [rnd] being the value
    returned by [Math.random()]. *)
Definition gen_flow (forceLeak : bool) (rnd : Q) : Z :=
  let base := if forceLeak then 11 else 1 in
  let span := if forceLeak then 3 else 12 in
  Math_floor (Fmul rnd (inject_Z span)) + base.

(** The part of [tick] after the flow is generated; [ts] is the string
    [new Date().toLocaleTimeString(...)] returns. *)
Definition tick_flow (s : State) (flow : Z) (ts : string) : State :=
  let highCount' :=
    if flow >? LEAK_THRESHOLD then highCount s + 1 else 0 in
  {| currentFlow := flow;
     totalLiters :=
       Fadd (totalLiters s)
            (Fmul (inject_Z flow) (Fdiv (inject_Z TICK_MS) (inject_Z 60000)));
     labels := push_point (labels s) ts;
     series := push_point (series s) flow;
     leakDetected :=
       if highCount' >=? LEAK_CONSEC_TICKS then true else leakDetected s;
     forceLeak := forceLeak s;
     highCount := highCount' |}.

(** One run of the [tick] callback.  [cancelled] is the flag of the effect
    that owns the loop: a cancelled callback returns at once, so a tick of
    the simulation is [tick false]. *)
Definition tick (cancelled : bool) (s : State) (rnd : Q) (ts : string) : State :=
  if cancelled then s
  else tick_flow s (gen_flow (forceLeak s) rnd) ts.

Definition acknowledgeAlert (s : State) : State :=
  {| currentFlow := currentFlow s;
     totalLiters := totalLiters s;
     labels := labels s;
     series := series s;
     leakDetected := false;
     forceLeak := forceLeak s;
     highCount := 0 |}.

Definition resetDay (s : State) : State :=
  {| currentFlow := currentFlow s;
     totalLiters := 0%Q;
     labels := [];
     series := [];
     leakDetected := false;
     forceLeak := forceLeak s;
     highCount := 0 |}.

(** The click handler of the simulation button: [setForceLeak((s) => !s)]. *)
Definition toggleForceLeak (s : State) : State :=
  {| currentFlow := currentFlow s;
     totalLiters := totalLiters s;
     labels := labels s;
     series := series s;
     leakDetected := leakDetected s;
     forceLeak := negb (forceLeak s);
     highCount := highCount s |}.

(** The operations that change the state: a live tick with its random
    draw and clock string, and the three buttons. *)
Inductive Op : Type :=
| OpTick (rnd : Q) (ts : string)
| OpAcknowledge
| OpResetDay
| OpToggle.

Definition step (s : State) (o : Op) : State :=
  match o with
  | OpTick rnd ts => tick false s rnd ts
  | OpAcknowledge => acknowledgeAlert s
  | OpResetDay => resetDay s
  | OpToggle => toggleForceLeak s
  end.

Definition run (s : State) (ops : list Op) : State := fold_left step ops s.

(** Live ticks in a row, and the states they go through (the first state
    included). *)
Definition run_ticks (s : State) (draws : list (Q * string)) : State :=
  fold_left (fun st d => tick false st (fst d) (snd d)) draws s.

Fixpoint tick_trace (s : State) (draws : list (Q * string)) : list State :=
  match draws with
  | [] => [s]
  | d :: rest => s :: tick_trace (tick false s (fst d) (snd d)) rest
  end.

(** An operation the running component can perform: the draw of a tick is
    a value [Math.random()] may return. *)
Definition valid_op (o : Op) : Prop :=
  match o with
  | OpTick rnd _ => random_value rnd
  | _ => True
  end.

(** The detector while the simulation is forced: the alert is raised
    exactly when the counter has reached [LEAK_CONSEC_TICKS]. *)
Definition forced_inv (s : State) : Prop :=
  forceLeak s = true /\
  leakDetected s = (LEAK_CONSEC_TICKS <=? highCount s).

(** The total does not go down from a state to a later one. *)
Definition total_le (a b : State) : Prop := (totalLiters a <= totalLiters b)%Q.

(** Ticks whose flows are given. *)
Definition run_flows (s : State) (flows : list (Z * string)) : State :=
  fold_left (fun st f => tick_flow st (fst f) (snd f)) flows s.

(** The parallel sequences the chart reads line up. *)
Definition aligned (s : State) : Prop := length (labels s) = length (series s).

(** The history as the chart shows it, oldest sample first. *)
Definition history (s : State) : list (string * Z) := combine (labels s) (series s).

(** Both sequences hold at most [MAX_POINTS] entries. *)
Definition bounded (s : State) : Prop :=
  Z.of_nat (length (labels s)) <= MAX_POINTS /\
  Z.of_nat (length (series s)) <= MAX_POINTS.

(** The liters one tick adds for a given flow: [flow * (TICK_MS / 60000)]. *)
Definition tick_liters (flow : Z) : Q :=
  Fmul (inject_Z flow) (Fdiv (inject_Z TICK_MS) (inject_Z 60000)).

(** Clock strings two seconds apart, for the examples. *)
Definition clock1 : string := "10:00:00".
Definition clock2 : string := "10:00:02".
Definition clock3 : string := "10:00:04".

(** Values [Math.random()] may return, for the examples: 11/16 and 3/8
    (exact in binary64) and the largest double below 1. *)
Definition draw_high : Q := 11 # 16.
Definition draw_low : Q := 3 # 8.
Definition draw_max : Q := 9007199254740991 # 9007199254740992.

(** A state in which the alert is raised: three high readings after mount. *)
Definition flagged_example : State :=
  run_flows init [(9, clock1); (10, clock2); (9, clock3)].

(** A chart that is full: the state thirty ticks after mount, the draws
    running through the sixteenths 0/16, 1/16, ... *)
Definition full_chart : State :=
  run_ticks init
    (map (fun k => (Z.of_nat (k mod 16) # 16, clock1)) (seq 0 (Z.to_nat MAX_POINTS))).

(** A button other than the two that clear the alert, or a tick. *)
Definition keeps_alert (o : Op) : Prop :=
  o <> OpAcknowledge /\ o <> OpResetDay.

End App.

(* ------------------------------------------------------------------ *)
(** ** What the view derives from the state *)

Module View.
Import Binary64 App.
Local Open Scope Z_scope.

(** [Math.round]: the nearest integer, a tie going to the larger one. *)
Definition Math_round (x : Q) : Z := Qfloor (x + (1 # 2)).

(** [totalLitersRounded = Math.round(totalLiters * 100) / 100], the figure
    of the "Total Usage Today" card. *)
Definition totalLitersRounded (s : State) : Q :=
  Fdiv (inject_Z (Math_round (Fmul (totalLiters s) (inject_Z 100)))) (inject_Z 100).

(** [chartOptions.scales.y.suggestedMax]. *)
Definition suggestedMax : Z := 14.

(** [chartData]: the labels and the one dataset the chart draws. *)
Definition chartData (s : State) : list string * list Z := (labels s, series s).

(** Every plotted value is a flow the generator can produce, below the
    suggested top of the axis. *)
Definition plotted_in_range (s : State) : Prop :=
  Forall (fun v => 1 <= v < suggestedMax) (snd (chartData s)).

(** The "Current Flow" card shows the newest plotted value, and the newest
    label is that of the same tick. *)
Definition shows_latest (s : State) : Prop :=
  snd (chartData s) = [] \/ last (snd (chartData s)) 0 = currentFlow s.

End View.

(* ------------------------------------------------------------------ *)
(** ** Reading the detector off a sequence of flows *)

Module Detector.
Import App.
Local Open Scope Z_scope.

(** A reading that counts towards a leak: [flow > LEAK_THRESHOLD]. *)
Definition high (flow : Z) : bool := flow >? LEAK_THRESHOLD.

(** Number of high readings at the front of a sequence, and at its end. *)
Fixpoint leading_high (flows : list Z) : Z :=
  match flows with
  | [] => 0
  | f :: rest => if high f then 1 + leading_high rest else 0
  end.

Definition trailing_high (flows : list Z) : Z := leading_high (rev flows).

(** [LEAK_CONSEC_TICKS] = 3 high readings in a row somewhere in the
    sequence. *)
Definition has_high_run (flows : list Z) : Prop :=
  exists (pre post : list Z) (a b c : Z),
    flows = pre ++ [a; b; c] ++ post
    /\ high a = true /\ high b = true /\ high c = true.

(** The smallest value of [Math.random()] that gives a high reading in
    normal mode: the double just below 2/3 (its product with 12 is a tie
    that rounds up to 8). *)
Definition draw_cut : Q := 6004799503160661 # 9007199254740992.

(** Three draws in a row at or above [draw_cut] somewhere in a sequence of
    draws (each with the clock string of its tick). *)
Definition has_draw_run (draws : list (Q * string)) : Prop :=
  exists (pre post : list (Q * string)) (d1 d2 d3 : Q * string),
    draws = pre ++ [d1; d2; d3] ++ post
    /\ (draw_cut <= fst d1)%Q /\ (draw_cut <= fst d2)%Q /\ (draw_cut <= fst d3)%Q.

End Detector.

(* ------------------------------------------------------------------ *)
(** ** The simulation loop (the effect of [App]) *)

Module Loop.
Import Binary64 App.
Local Open Scope Z_scope.

(** One run of the effect that got past the guard: its [tick] closure, with
    the [forceLeak] of the render it was created in and its [cancelled]
    variable. *)
Record Closure : Type := mkClosure {
  captured : bool;
  cancelled : bool
}.

(** The component with its loop: the state, [runningRef], the closures
    created so far (a closure is named by its position), the pending
    [setTimeout(tick, TICK_MS)] calls, oldest first, each naming the
    closure whose [tick] it will call, and the cleanup function React
    holds for the last run of the effect (none when that run returned at
    the guard, or before mount). *)
Record Sys : Type := mkSys {
  app : State;
  runningRef : bool;
  closures : list Closure;
  timers : list nat;
  cleanup : option nat
}.

(** Before mount. *)
Definition boot : Sys :=
  {| app := init; runningRef := false; closures := []; timers := []; cleanup := None |}.

(** [cancelled = true] in closure [id]. *)
Fixpoint cancel (id : nat) (cs : list Closure) : list Closure :=
  match cs, id with
  | [], _ => []
  | c :: rest, O => {| captured := captured c; cancelled := true |} :: rest
  | c :: rest, S n => c :: cancel n rest
  end.

(** The [tick] of closure [id]: it returns at once when the closure is
    cancelled; otherwise it runs the body with the closure's [forceLeak]
    and re-arms the timer. *)
Definition tick_of (id : nat) (y : Sys) (rnd : Q) (ts : string) : Sys :=
  match nth_error (closures y) id with
  | None => y
  | Some c =>
      if cancelled c then y
      else {| app := tick_flow (app y) (gen_flow (captured c) rnd) ts;
              runningRef := runningRef y;
              closures := closures y;
              timers := timers y ++ [id];
              cleanup := cleanup y |}
  end.

(** The body of the effect, run after a render: the guard on [runningRef],
    then a new closure, its first tick, and the cleanup handed to React. *)
Definition effect (y : Sys) (rnd : Q) (ts : string) : Sys :=
  if runningRef y then
    {| app := app y; runningRef := runningRef y; closures := closures y;
       timers := timers y; cleanup := None |}
  else
    let id := length (closures y) in
    tick_of id
      {| app := app y;
         runningRef := true;
         closures := closures y ++ [{| captured := forceLeak (app y); cancelled := false |}];
         timers := timers y;
         cleanup := Some id |}
      rnd ts.

(** The cleanup the effect returned for closure [id]:
    [cancelled = true; runningRef.current = false]. *)
Definition cleanup_of (id : nat) (y : Sys) : Sys :=
  {| app := app y; runningRef := false; closures := cancel id (closures y);
     timers := timers y; cleanup := None |}.

(** React calls the cleanup it holds, if any. *)
Definition run_cleanup (y : Sys) : Sys :=
  match cleanup y with
  | Some id => cleanup_of id y
  | None => y
  end.

Definition with_app (y : Sys) (s : State) : Sys :=
  {| app := s; runningRef := runningRef y; closures := closures y;
     timers := timers y; cleanup := cleanup y |}.

(** What happens to the mounted component.  The effect has the dependency
    list [[forceLeak]]: after the render that follows a click on the
    simulation button React calls the cleanup of the previous run and then
    the effect; a development-mode remount does the same without a change
    of state; unmounting calls the cleanup.  The oldest pending timeout is
    the one that fires. *)
Inductive Event : Type :=
| TimerFires (rnd : Q) (ts : string)
| ClickToggle (rnd : Q) (ts : string)
| Remount (rnd : Q) (ts : string)
| ClickAcknowledge
| ClickResetDay
| Unmount.

Definition react (y : Sys) (e : Event) : Sys :=
  match e with
  | TimerFires rnd ts =>
      match timers y with
      | [] => y
      | id :: rest =>
          tick_of id
            {| app := app y; runningRef := runningRef y; closures := closures y;
               timers := rest; cleanup := cleanup y |}
            rnd ts
      end
  | ClickToggle rnd ts =>
      effect (run_cleanup (with_app y (toggleForceLeak (app y)))) rnd ts
  | Remount rnd ts => effect (run_cleanup y) rnd ts
  | ClickAcknowledge => with_app y (acknowledgeAlert (app y))
  | ClickResetDay => with_app y (resetDay (app y))
  | Unmount => run_cleanup y
  end.

(** Mount (the effect runs after the first render), then the events. *)
Definition mount (rnd : Q) (ts : string) : Sys := effect boot rnd ts.

Definition play (y : Sys) (events : list Event) : Sys := fold_left react events y.

(** Closure [id] exists and is not cancelled. *)
Definition alive (cs : list Closure) (id : nat) : bool :=
  match nth_error cs id with
  | Some c => negb (cancelled c)
  | None => false
  end.

(** Pending timeouts whose tick will run. *)
Definition live_timers (y : Sys) : list nat := filter (alive (closures y)) (timers y).

Definition all_cancelled (cs : list Closure) : Prop :=
  forall (j : nat) (c : Closure), nth_error cs j = Some c -> cancelled c = true.

(** No loop runs: nothing is alive and React holds no cleanup. *)
Definition stopped (y : Sys) : Prop :=
  runningRef y = false /\ cleanup y = None /\ all_cancelled (closures y)
  /\ Forall (fun id => (id < length (closures y))%nat) (timers y).

(** What holds of the loop between events: every pending timeout names a
    closure that exists; while React holds a cleanup the loop runs with
    exactly one closure not cancelled, the one the cleanup names, created
    with the current [forceLeak] and with exactly one pending timeout;
    otherwise every closure is cancelled. *)
Definition loop_inv (y : Sys) : Prop :=
  Forall (fun id => (id < length (closures y))%nat) (timers y)
  /\ match cleanup y with
     | Some id =>
         runningRef y = true
         /\ nth_error (closures y) id
            = Some {| captured := forceLeak (app y); cancelled := false |}
         /\ (forall j c, nth_error (closures y) j = Some c -> j <> id -> cancelled c = true)
         /\ live_timers y = [id]
     | None => runningRef y = false /\ all_cancelled (closures y)
     end.

(** An event whose draw, if it has one, is a value [Math.random()] may
    return. *)
Definition valid_event (e : Event) : Prop :=
  match e with
  | TimerFires rnd _ | ClickToggle rnd _ | Remount rnd _ => random_value rnd
  | _ => True
  end.

(** The timer fires [n] times in a row. *)
Definition fire_all (y : Sys) (draws : list (Q * string)) : Sys :=
  fold_left (fun st d => react st (TimerFires (fst d) (snd d))) draws y.

End Loop.

Import Binary64 App.

(* ------------------------------------------------------------------ *)
(** ** Facts about binary64 rounding *)

Section Rounding.
Local Open Scope Q_scope.

Lemma two_neq_0 : ~ 2 == 0.
Proof. discriminate. Qed.

Lemma pow2_pos (k : Z) : 0 < 2 ^ k.
Proof. apply Qpower_0_lt. reflexivity. Qed.

Lemma pow2_add (a b : Z) : 2 ^ (a + b) == 2 ^ a * 2 ^ b.
Proof. apply Qpower_plus, two_neq_0. Qed.

Lemma pow2_le (a b : Z) : (a <= b)%Z -> 2 ^ a <= 2 ^ b.
Proof. intros H. apply Qpower_le_compat_l; [exact H | discriminate]. Qed.

Lemma pow2_lt (a b : Z) : (a < b)%Z -> 2 ^ a < 2 ^ b.
Proof. intros H. apply Qpower_lt_compat_l; [exact H | reflexivity]. Qed.

Lemma pow2_lt_inv (a b : Z) : 2 ^ a < 2 ^ b -> (a < b)%Z.
Proof. intros H. apply (Qpower_lt_compat_l_inv 2); [exact H | reflexivity]. Qed.

Lemma pow2_inject (k : Z) : (0 <= k)%Z -> 2 ^ k == inject_Z (2 ^ k).
Proof. intros H. symmetry. apply (Zpower_Qpower 2 k H). Qed.

Lemma Q_as_ratio (x : Q) : x * inject_Z (Zpos (Qden x)) == inject_Z (Qnum x).
Proof.
  destruct x as [n d]. unfold Qeq, Qmult, inject_Z. simpl. lia.
Qed.

Lemma inject_Z_le (a b : Z) : (a <= b)%Z -> inject_Z a <= inject_Z b.
Proof. intros H. rewrite <- Zle_Qle. exact H. Qed.

Lemma inject_Z_lt (a b : Z) : (a < b)%Z -> inject_Z a < inject_Z b.
Proof. intros H. rewrite <- Zlt_Qlt. exact H. Qed.

(** [ilog2] finds the binade of a positive rational. *)
Lemma ilog2_spec (x : Q) :
  0 < x -> 2 ^ ilog2 x <= x /\ x < 2 ^ (ilog2 x + 1).
Proof.
  intros Hx.
  assert (Hn : (0 < Qnum x)%Z).
  { destruct x as [n d]. unfold Qlt in Hx. simpl in *. lia. }
  pose proof (Z.log2_spec (Qnum x) Hn) as [Hn1 Hn2].
  pose proof (Z.log2_spec (Zpos (Qden x)) (Pos2Z.is_pos _)) as [Hd1 Hd2].
  pose proof (Z.log2_nonneg (Qnum x)) as Ha.
  pose proof (Z.log2_nonneg (Zpos (Qden x))) as Hb.
  set (a := Z.log2 (Qnum x)) in *. set (b := Z.log2 (Zpos (Qden x))) in *.
  pose proof (Q_as_ratio x) as Hr.
  assert (Hd0 : 0 < inject_Z (Zpos (Qden x))) by reflexivity.
  apply inject_Z_le in Hn1, Hd1. apply inject_Z_lt in Hn2, Hd2.
  rewrite <- Z.add_1_r in Hn2, Hd2.
  rewrite <- !pow2_inject in * by lia.
  unfold ilog2. fold a b.
  destruct (Qle_bool (2 ^ (a - b)) x) eqn:E.
  - apply Qle_bool_iff in E. split; [exact E|].
    (* x * 2^b <= x * d = n < 2^(a+1) *)
    apply (Qmult_lt_r _ _ (2 ^ b)); [apply pow2_pos|].
    rewrite <- pow2_add. replace (a - b + 1 + b)%Z with (a + 1)%Z by lia.
    apply Qle_lt_trans with (x * inject_Z (Zpos (Qden x))).
    + apply Qmult_le_l; assumption.
    + rewrite Hr. exact Hn2.
  - assert (E' : x < 2 ^ (a - b)).
    { apply Qnot_le_lt. intros H. apply Qle_bool_iff in H. congruence. }
    replace (a - b - 1 + 1)%Z with (a - b)%Z by lia.
    split; [|exact E'].
    apply Qlt_le_weak.
    apply (Qmult_lt_r _ _ (2 ^ (b + 1))); [apply pow2_pos|].
    rewrite <- pow2_add. replace (a - b - 1 + (b + 1))%Z with a by lia.
    apply Qle_lt_trans with (x * inject_Z (Zpos (Qden x))).
    + rewrite Hr. exact Hn1.
    + apply Qmult_lt_l; assumption.
Qed.

Lemma ilog2_unique (x : Q) (e : Z) :
  2 ^ e <= x -> x < 2 ^ (e + 1) -> ilog2 x = e.
Proof.
  intros H1 H2.
  assert (Hx : 0 < x) by (eapply Qlt_le_trans; [apply pow2_pos | exact H1]).
  destruct (ilog2_spec x Hx) as [H3 H4].
  assert (ilog2 x < e + 1)%Z
    by (apply pow2_lt_inv; eapply Qle_lt_trans; eassumption).
  assert (e < ilog2 x + 1)%Z
    by (apply pow2_lt_inv; eapply Qle_lt_trans; eassumption).
  lia.
Qed.

Lemma ilog2_mono (x y : Q) : 0 < x -> x <= y -> (ilog2 x <= ilog2 y)%Z.
Proof.
  intros Hx Hxy.
  assert (Hy : 0 < y) by (eapply Qlt_le_trans; eassumption).
  destruct (ilog2_spec x Hx) as [H1 _].
  destruct (ilog2_spec y Hy) as [_ H2].
  assert (ilog2 x < ilog2 y + 1)%Z; [|lia].
  apply pow2_lt_inv.
  eapply Qle_lt_trans; [exact H1|]. eapply Qle_lt_trans; eassumption.
Qed.

Lemma ilog2_comp (x y : Q) : 0 < x -> x == y -> ilog2 x = ilog2 y.
Proof.
  intros Hx E. destruct (ilog2_spec x Hx) as [H1 H2].
  symmetry. apply ilog2_unique; rewrite <- E; assumption.
Qed.

(** *** Rounding to the nearest integer *)

Lemma Qeq_bool_comp_l (a b c : Q) : a == b -> Qeq_bool a c = Qeq_bool b c.
Proof.
  intros E.
  destruct (Qeq_bool a c) eqn:A, (Qeq_bool b c) eqn:B; try reflexivity.
  - apply Qeq_bool_iff in A. apply Qeq_bool_neq in B. exfalso. apply B.
    apply Qeq_trans with a; [apply Qeq_sym; exact E | exact A].
  - apply Qeq_bool_iff in B. apply Qeq_bool_neq in A. exfalso. apply A.
    apply Qeq_trans with b; assumption.
Qed.

Lemma rne_comp (x y : Q) : x == y -> rne x = rne y.
Proof.
  intros E. unfold rne.
  assert (E2 : x + (1 # 2) == y + (1 # 2)) by (rewrite E; reflexivity).
  rewrite (Qfloor_comp _ _ E2).
  rewrite (Qeq_bool_comp_l _ _ _ E2). reflexivity.
Qed.

Lemma rne_bounds (x : Q) :
  (Qfloor (x + (1 # 2)) - 1 <= rne x <= Qfloor (x + (1 # 2)))%Z.
Proof.
  unfold rne. destruct (_ && _); lia.
Qed.

Lemma rne_mono (x y : Q) : x <= y -> (rne x <= rne y)%Z.
Proof.
  intros Hxy.
  assert (Hf : (Qfloor (x + (1 # 2)) <= Qfloor (y + (1 # 2)))%Z).
  { apply Qfloor_resp_le. apply Qplus_le_l. exact Hxy. }
  pose proof (rne_bounds x) as Bx. pose proof (rne_bounds y) as By.
  destruct (Z.eq_dec (Qfloor (x + (1 # 2))) (Qfloor (y + (1 # 2)))) as [E|NE]; [|lia].
  (* same candidate: if y is a tie rounded down, then x is the same tie *)
  unfold rne in *. rewrite E in *.
  destruct (Qeq_bool (y + (1 # 2)) _ && _) eqn:Ty; [|destruct (_ && _); lia].
  apply andb_true_iff in Ty. destruct Ty as [Ty Odd]. rewrite Odd.
  apply Qeq_bool_iff in Ty.
  assert (Tx : x + (1 # 2) == inject_Z (Qfloor (y + (1 # 2)))).
  { apply Qle_antisym.
    - rewrite <- Ty. apply Qplus_le_l. exact Hxy.
    - rewrite <- E. apply Qfloor_le. }
  apply Qeq_bool_iff in Tx. rewrite Tx. simpl. lia.
Qed.

Lemma rne_Z (k : Z) : rne (inject_Z k) = k.
Proof.
  unfold rne.
  assert (F : Qfloor (inject_Z k + (1 # 2)) = k).
  { pose proof (Qfloor_le (inject_Z k + (1 # 2))) as H1.
    pose proof (Qlt_floor (inject_Z k + (1 # 2))) as H2.
    set (f := Qfloor _) in *.
    assert (inject_Z f < inject_Z (k + 1)).
    { eapply Qle_lt_trans; [exact H1|]. rewrite inject_Z_plus.
      apply Qplus_lt_r. reflexivity. }
    assert (inject_Z k < inject_Z (f + 1)).
    { eapply Qle_lt_trans; [|exact H2].
      rewrite <- (Qplus_0_r (inject_Z k)) at 1. apply Qplus_le_r. discriminate. }
    rewrite <- Zlt_Qlt in *. lia. }
  rewrite F.
  destruct (Qeq_bool _ _) eqn:E; [|reflexivity].
  apply Qeq_bool_iff in E. exfalso.
  assert (H : inject_Z k + 0 < inject_Z k + (1 # 2)) by (apply Qplus_lt_r; reflexivity).
  rewrite E, Qplus_0_r in H. exact (Qlt_irrefl _ H).
Qed.

(** *** Rounding within [2^q] *)

(** Rounding to a multiple of [2^q] does not cross a power of two [2^k]
    with [q <= k]: such a power is itself a multiple of [2^q]. *)
Lemma pow2_quot (k q : Z) :
  (q <= k)%Z -> 2 ^ k / 2 ^ q == inject_Z (2 ^ (k - q)).
Proof.
  intros H. rewrite <- pow2_inject by lia.
  replace k with (k - q + q)%Z at 1 by lia.
  rewrite pow2_add. apply Qdiv_mult_l.
  apply Qnot_eq_sym, Qlt_not_eq, pow2_pos.
Qed.

Lemma pow2_neq_0 (q : Z) : ~ 2 ^ q == 0.
Proof. apply Qnot_eq_sym, Qlt_not_eq, pow2_pos. Qed.

Lemma pow2_split (k q : Z) : 2 ^ k == 2 ^ (k - q) * 2 ^ q.
Proof.
  rewrite <- pow2_add. replace (k - q + q)%Z with k by lia. reflexivity.
Qed.

Lemma scale_le_pow (x : Q) (q k : Z) :
  (q <= k)%Z -> x <= 2 ^ k -> inject_Z (rne (x / 2 ^ q)) * 2 ^ q <= 2 ^ k.
Proof.
  intros Hqk Hx.
  assert (H : (rne (x / 2 ^ q) <= 2 ^ (k - q))%Z).
  { rewrite <- (rne_Z (2 ^ (k - q))). apply rne_mono.
    rewrite <- pow2_quot by exact Hqk.
    apply Qmult_le_compat_r; [exact Hx|].
    apply Qlt_le_weak, Qinv_lt_0_compat, pow2_pos. }
  apply inject_Z_le in H. rewrite <- pow2_inject in H by lia.
  rewrite (pow2_split k q).
  apply Qmult_le_compat_r; [exact H | apply Qlt_le_weak, pow2_pos].
Qed.

Lemma scale_ge_pow (y : Q) (q k : Z) :
  (q <= k)%Z -> 2 ^ k <= y -> 2 ^ k <= inject_Z (rne (y / 2 ^ q)) * 2 ^ q.
Proof.
  intros Hqk Hy.
  assert (H : (2 ^ (k - q) <= rne (y / 2 ^ q))%Z).
  { rewrite <- (rne_Z (2 ^ (k - q))) at 1. apply rne_mono.
    rewrite <- pow2_quot by exact Hqk.
    apply Qmult_le_compat_r; [exact Hy|].
    apply Qlt_le_weak, Qinv_lt_0_compat, pow2_pos. }
  apply inject_Z_le in H. rewrite <- pow2_inject in H by lia.
  rewrite (pow2_split k q).
  apply Qmult_le_compat_r; [exact H | apply Qlt_le_weak, pow2_pos].
Qed.

Lemma scale_nonneg (x : Q) (q : Z) :
  0 <= x -> 0 <= inject_Z (rne (x / 2 ^ q)) * 2 ^ q.
Proof.
  intros Hx. apply Qmult_le_0_compat; [|apply Qlt_le_weak, pow2_pos].
  change 0 with (inject_Z 0). apply inject_Z_le.
  rewrite <- (rne_Z 0). apply rne_mono. change (inject_Z 0) with 0.
  apply Qmult_le_0_compat; [exact Hx|].
  apply Qlt_le_weak, Qinv_lt_0_compat, pow2_pos.
Qed.

(** *** [round_pos] *)

Lemma round_pos_nonneg (x : Q) : 0 <= x -> 0 <= round_pos x.
Proof.
  intros Hx. unfold round_pos. rewrite Qred_correct. apply scale_nonneg, Hx.
Qed.

Lemma round_pos_zero (x : Q) : x == 0 -> round_pos x = 0.
Proof.
  intros E. unfold round_pos. change 0 with (Qred 0). apply Qred_complete.
  assert (E2 : x / 2 ^ ulp_exp x == inject_Z 0).
  { apply Qeq_trans with (0 / 2 ^ ulp_exp x); [|reflexivity].
    apply Qdiv_comp; [exact E | reflexivity]. }
  rewrite (rne_comp _ _ E2), rne_Z. apply Qmult_0_l.
Qed.

Lemma round_pos_comp (x y : Q) : 0 <= x -> x == y -> round_pos x = round_pos y.
Proof.
  intros H0 E.
  destruct (Qlt_le_dec 0 x) as [Hx|Hx].
  - unfold round_pos, ulp_exp. rewrite (ilog2_comp x y Hx E).
    apply Qred_complete.
    assert (E2 : x / 2 ^ Z.max (ilog2 y - (prec - 1)) emin
              == y / 2 ^ Z.max (ilog2 y - (prec - 1)) emin)
      by (apply Qdiv_comp; [exact E | reflexivity]).
    rewrite (rne_comp _ _ E2). reflexivity.
  - assert (Ex : x == 0) by (apply Qle_antisym; assumption).
    rewrite (round_pos_zero x Ex). symmetry. apply round_pos_zero.
    rewrite <- E. exact Ex.
Qed.

Lemma ulp_exp_mono (x y : Q) : 0 < x -> x <= y -> (ulp_exp x <= ulp_exp y)%Z.
Proof.
  intros Hx Hxy. unfold ulp_exp. pose proof (ilog2_mono x y Hx Hxy). lia.
Qed.

Lemma round_pos_mono (x y : Q) :
  0 <= x -> x <= y -> round_pos x <= round_pos y.
Proof.
  intros H0 Hxy.
  destruct (Qlt_le_dec 0 x) as [Hx|Hx].
  - assert (Hy : 0 < y) by (eapply Qlt_le_trans; eassumption).
    pose proof (ulp_exp_mono x y Hx Hxy) as Hq.
    unfold round_pos. rewrite !Qred_correct.
    destruct (Z.eq_dec (ulp_exp x) (ulp_exp y)) as [E|NE].
    + rewrite E. apply Qmult_le_compat_r; [|apply Qlt_le_weak, pow2_pos].
      apply inject_Z_le, rne_mono.
      apply Qmult_le_compat_r; [exact Hxy|].
      apply Qlt_le_weak, Qinv_lt_0_compat, pow2_pos.
    + (* [x] and [y] lie in different binades: [2 ^ ilog2 y] separates
         their roundings *)
      assert (Hlt : (ulp_exp x < ulp_exp y)%Z) by lia.
      destruct (ilog2_spec x Hx) as [_ Hx2].
      destruct (ilog2_spec y Hy) as [Hy1 _].
      unfold ulp_exp, prec, emin in Hlt.
      apply Qle_trans with (2 ^ ilog2 y).
      * apply scale_le_pow; [unfold ulp_exp, prec, emin; lia|].
        apply Qlt_le_weak. eapply Qlt_le_trans; [exact Hx2|].
        apply pow2_le. lia.
      * apply scale_ge_pow; [unfold ulp_exp, prec, emin; lia | exact Hy1].
  - assert (Ex : x == 0) by (apply Qle_antisym; assumption).
    rewrite (round_pos_zero x Ex). apply round_pos_nonneg.
    eapply Qle_trans; eassumption.
Qed.

(** *** [round] *)

Lemma round_nonneg (x : Q) : 0 <= x -> 0 <= round x.
Proof.
  intros Hx. unfold round.
  apply Qle_bool_iff in Hx. rewrite Hx. apply round_pos_nonneg.
  apply Qle_bool_iff, Hx.
Qed.

Lemma round_mono (x y : Q) : x <= y -> round x <= round y.
Proof.
  intros Hxy. unfold round.
  destruct (Qle_bool 0 x) eqn:Sx; destruct (Qle_bool 0 y) eqn:Sy.
  - apply round_pos_mono; [apply Qle_bool_iff, Sx | exact Hxy].
  - exfalso. apply Qle_bool_iff in Sx.
    assert (0 <= y) by (eapply Qle_trans; eassumption).
    apply Qle_bool_iff in H. congruence.
  - assert (Hx : x < 0).
    { apply Qnot_le_lt. intros H. apply Qle_bool_iff in H. congruence. }
    rewrite Qred_correct.
    apply Qle_trans with 0.
    + apply (Qopp_le_compat 0). apply round_pos_nonneg.
      apply (Qopp_le_compat x 0). apply Qlt_le_weak, Hx.
    + apply round_pos_nonneg. apply Qle_bool_iff, Sy.
  - assert (Hy : y < 0).
    { apply Qnot_le_lt. intros H. apply Qle_bool_iff in H. congruence. }
    rewrite !Qred_correct. apply Qopp_le_compat.
    apply round_pos_mono.
    + apply (Qopp_le_compat y 0). apply Qlt_le_weak, Hy.
    + apply Qopp_le_compat, Hxy.
Qed.

Lemma round_comp (x y : Q) : x == y -> round x = round y.
Proof.
  intros E. unfold round.
  assert (S : Qle_bool 0 x = Qle_bool 0 y).
  { destruct (Qle_bool 0 x) eqn:A, (Qle_bool 0 y) eqn:B; try reflexivity.
    - apply Qle_bool_iff in A. rewrite E in A. apply Qle_bool_iff in A. congruence.
    - apply Qle_bool_iff in B. rewrite <- E in B. apply Qle_bool_iff in B. congruence. }
  rewrite <- S. destruct (Qle_bool 0 x) eqn:A.
  - apply round_pos_comp; [apply Qle_bool_iff, A | exact E].
  - f_equal. f_equal. apply round_pos_comp.
    + apply (Qopp_le_compat x 0). apply Qlt_le_weak, Qnot_le_lt.
      intros H. apply Qle_bool_iff in H. congruence.
    + rewrite E. reflexivity.
Qed.

(** A nonnegative fixed point of [round] is a multiple of its own ulp. *)
Lemma double_decomp (x : Q) :
  0 <= x -> round x = x ->
  x == inject_Z (rne (x / 2 ^ ulp_exp x)) * 2 ^ ulp_exp x.
Proof.
  intros Hx Hr. unfold round in Hr.
  apply Qle_bool_iff in Hx. rewrite Hx in Hr.
  unfold round_pos in Hr. rewrite <- Hr at 1. apply Qred_correct.
Qed.

(** The largest double below 1 is 1 - 2^-53. *)
Lemma double_below_one (r : Q) :
  round r = r -> 0 <= r -> r < 1 -> r <= 1 - 2 ^ (-53).
Proof.
  intros Hr H0 H1.
  destruct (Qlt_le_dec r (2 ^ (-1))) as [Hs|Hb].
  - apply Qlt_le_weak. eapply Qlt_le_trans; [exact Hs|]. discriminate.
  - assert (E : ilog2 r = (-1)%Z) by (apply ilog2_unique; assumption).
    pose proof (double_decomp r H0 Hr) as D.
    unfold ulp_exp in D. rewrite E in D.
    change (Z.max (-1 - (prec - 1)) emin) with (-53)%Z in D.
    set (m := rne (r / 2 ^ (-53))) in *.
    assert (Hm : (m < 2 ^ 53)%Z).
    { rewrite Zlt_Qlt. apply (Qmult_lt_r _ _ (2 ^ (-53))); [apply pow2_pos|].
      rewrite <- D. eapply Qlt_le_trans; [exact H1|]. discriminate. }
    rewrite D.
    apply Qle_trans with (inject_Z (2 ^ 53 - 1) * 2 ^ (-53)); [|discriminate].
    apply Qmult_le_compat_r; [|apply Qlt_le_weak, pow2_pos].
    apply inject_Z_le. lia.
Qed.

(** *** Rounding is idempotent *)

Lemma ilog2_lt (w : Q) (k : Z) : 0 < w -> w < 2 ^ k -> (ilog2 w < k)%Z.
Proof.
  intros Hw Hk. destruct (ilog2_spec w Hw) as [H _].
  apply pow2_lt_inv. eapply Qle_lt_trans; eassumption.
Qed.

(** A multiple [n * 2^p] of a power of two at or above its ulp is
    representable. *)
Lemma round_pos_exact (w : Q) (n p : Z) :
  w == inject_Z n * 2 ^ p -> (ulp_exp w <= p)%Z -> round_pos w == w.
Proof.
  intros E Hp. unfold round_pos. rewrite Qred_correct.
  set (q := ulp_exp w) in *.
  assert (S : w / 2 ^ q == inject_Z (n * 2 ^ (p - q))).
  { rewrite inject_Z_mult, <- pow2_quot by exact Hp.
    unfold Qdiv. rewrite Qmult_assoc.
    apply Qmult_comp; [exact E | reflexivity]. }
  rewrite (rne_comp _ _ S), rne_Z.
  rewrite inject_Z_mult, <- pow2_inject by lia.
  rewrite <- Qmult_assoc, <- pow2_split. symmetry. exact E.
Qed.

Lemma round_pos_fixed (z : Q) : 0 <= z -> round_pos (round_pos z) == round_pos z.
Proof.
  intros Hz.
  pose proof (round_pos_nonneg z Hz) as Hw.
  destruct (Qlt_le_dec 0 (round_pos z)) as [Hpos|Hzero].
  2: { assert (E : round_pos z == 0) by (apply Qle_antisym; assumption).
       rewrite (round_pos_zero _ E). symmetry. exact E. }
  assert (Hz' : 0 < z).
  { destruct (Qlt_le_dec 0 z) as [H|H]; [exact H|].
    assert (E : z == 0) by (apply Qle_antisym; assumption).
    rewrite (round_pos_zero _ E) in Hpos. discriminate Hpos. }
  set (q := ulp_exp z).
  assert (D : round_pos z == inject_Z (rne (z / 2 ^ q)) * 2 ^ q)
    by (unfold round_pos; apply Qred_correct).
  assert (Hq : (emin <= q)%Z) by (unfold q, ulp_exp; lia).
  assert (Hb : round_pos z <= 2 ^ (q + 53)).
  { rewrite D.
    apply Qle_trans with (2 ^ Z.max (ilog2 z + 1) q).
    - apply scale_le_pow; [lia|].
      destruct (ilog2_spec z Hz') as [_ H]. apply Qlt_le_weak.
      eapply Qlt_le_trans; [exact H|]. apply pow2_le. lia.
    - apply pow2_le. unfold q, ulp_exp, prec. lia. }
  destruct (Qlt_le_dec (round_pos z) (2 ^ (q + 53))) as [Hlt|Hge].
  - apply (round_pos_exact _ (rne (z / 2 ^ q)) q); [exact D|].
    pose proof (ilog2_lt _ _ Hpos Hlt). unfold ulp_exp, prec. lia.
  - assert (E : round_pos z == 2 ^ (q + 53)) by (apply Qle_antisym; assumption).
    apply (round_pos_exact _ 1 (q + 53)).
    + rewrite E. symmetry. apply Qmult_1_l.
    + assert (L : ilog2 (round_pos z) = (q + 53)%Z).
      { apply ilog2_unique; rewrite E; [apply Qle_refl | apply pow2_lt; lia]. }
      unfold ulp_exp, prec. rewrite L. lia.
Qed.

Lemma round_pos_canon (x : Q) : Qred (round_pos x) = round_pos x.
Proof. unfold round_pos. apply Qred_complete, Qred_correct. Qed.

Lemma round_of_nonneg (z : Q) : 0 <= z -> round z = round_pos z.
Proof. intros H. unfold round. apply Qle_bool_iff in H. rewrite H. reflexivity. Qed.

Lemma round_pos_idem (z : Q) : 0 <= z -> round_pos (round_pos z) = round_pos z.
Proof.
  intros H.
  rewrite <- (round_pos_canon (round_pos z)) at 1.
  rewrite <- (round_pos_canon z) at 2.
  apply Qred_complete, round_pos_fixed, H.
Qed.

Lemma round_idem (z : Q) : round (round z) = round z.
Proof.
  destruct (Qle_bool 0 z) eqn:S.
  - apply Qle_bool_iff in S.
    rewrite (round_of_nonneg z S).
    rewrite (round_of_nonneg _ (round_pos_nonneg z S)).
    apply round_pos_idem, S.
  - assert (Hz : 0 <= - z).
    { apply (Qopp_le_compat z 0), Qlt_le_weak, Qnot_le_lt.
      intros H. apply Qle_bool_iff in H. congruence. }
    pose proof (round_pos_nonneg _ Hz) as Hw.
    assert (R : round z = Qred (- round_pos (- z))) by (unfold round; rewrite S; reflexivity).
    rewrite R.
    set (v := Qred (- round_pos (- z))).
    assert (Ev : - v == round_pos (- z)).
    { unfold v. rewrite Qred_correct. apply Qopp_involutive. }
    unfold round. destruct (Qle_bool 0 v) eqn:Sv.
    + apply Qle_bool_iff in Sv.
      assert (E0 : v == 0).
      { apply Qle_antisym; [|exact Sv].
        unfold v. rewrite Qred_correct. apply (Qopp_le_compat 0), Hw. }
      rewrite (round_pos_zero _ E0).
      unfold v. change 0 with (Qred 0). apply Qred_complete.
      unfold v in E0. rewrite Qred_correct in E0. symmetry. exact E0.
    + unfold v at 2. apply Qred_complete. apply Qopp_comp.
      assert (Hv : 0 <= - v) by (rewrite Ev; exact Hw).
      rewrite (round_pos_comp _ _ Hv Ev).
      apply round_pos_fixed, Hz.
Qed.

(** *** [round] returns the nearest double *)

Lemma rne_error (y : Q) : Qabs (inject_Z (rne y) - y) <= 1 # 2.
Proof.
  pose proof (Qfloor_le (y + (1 # 2))) as H1.
  pose proof (Qlt_floor (y + (1 # 2))) as H2.
  rewrite inject_Z_plus in H2. change (inject_Z 1) with 1 in H2.
  apply Qabs_Qle_condition. unfold rne.
  destruct (Qeq_bool _ _ && _) eqn:T.
  - apply andb_true_iff in T. destruct T as [T _]. apply Qeq_bool_iff in T.
    assert (T1 : y + (1 # 2) <= inject_Z (Qfloor (y + (1 # 2))))
      by (apply Qle_lteq; right; exact T).
    unfold Z.sub. rewrite inject_Z_plus, inject_Z_opp. change (inject_Z 1) with 1.
    split; lra.
  - split; lra.
Qed.

(** The result is within half a unit in the last place of the argument. *)
Lemma round_pos_error (x : Q) :
  Qabs (round_pos x - x) <= (1 # 2) * 2 ^ ulp_exp x.
Proof.
  unfold round_pos. rewrite Qred_correct. set (q := ulp_exp x).
  assert (E : inject_Z (rne (x / 2 ^ q)) * 2 ^ q - x
              == (inject_Z (rne (x / 2 ^ q)) - x / 2 ^ q) * 2 ^ q).
  { field. apply pow2_neq_0. }
  rewrite E, Qabs_Qmult.
  rewrite (Qabs_pos (2 ^ q)) by apply Qlt_le_weak, pow2_pos.
  apply Qmult_le_compat_r; [apply rne_error | apply Qlt_le_weak, pow2_pos].
Qed.

(** Every [m * 2^e] with [m] below 2^53 and [e] at least the subnormal
    exponent is a fixed point of [round]: with [double_decomp], the fixed
    points are exactly the values binary64 represents. *)
Lemma round_representable (m e : Z) :
  (0 <= m < 2 ^ 53)%Z -> (emin <= e)%Z ->
  round (inject_Z m * 2 ^ e) == inject_Z m * 2 ^ e.
Proof.
  intros [Hm0 Hm1] He.
  set (w := inject_Z m * 2 ^ e).
  assert (Hw : 0 <= w).
  { apply Qmult_le_0_compat; [|apply Qlt_le_weak, pow2_pos].
    change 0 with (inject_Z 0). apply inject_Z_le, Hm0. }
  rewrite (round_of_nonneg w Hw).
  destruct (Qlt_le_dec 0 w) as [Hpos|Hzero].
  - apply (round_pos_exact w m e); [reflexivity|].
    assert (Hlt : w < 2 ^ (e + 53)).
    { rewrite Z.add_comm, pow2_add. apply Qmult_lt_compat_r; [apply pow2_pos|].
      rewrite pow2_inject by lia. apply inject_Z_lt, Hm1. }
    pose proof (ilog2_lt w _ Hpos Hlt). unfold ulp_exp, prec. lia.
  - assert (E : w == 0) by (apply Qle_antisym; assumption).
    rewrite (round_pos_zero w E). symmetry. exact E.
Qed.

(** *** The finite range *)

Lemma round_max_double : round (max_double + 1) = max_double.
Proof. vm_compute. reflexivity. Qed.

Lemma round_min_double : round (- max_double) = - max_double.
Proof. vm_compute. reflexivity. Qed.

Lemma round_in_range (z : Q) :
  - max_double <= z -> z <= max_double + 1 -> Qabs (round z) <= max_double.
Proof.
  intros Hlo Hhi. apply Qabs_Qle_condition. split.
  - rewrite <- round_min_double. apply round_mono, Hlo.
  - rewrite <- round_max_double. apply round_mono, Hhi.
Qed.

Lemma round_is_double (z : Q) :
  - max_double <= z -> z <= max_double + 1 -> is_double (round z).
Proof.
  intros Hlo Hhi. split; [apply round_idem | apply round_in_range; assumption].
Qed.

End Rounding.

(* ------------------------------------------------------------------ *)
(** ** The flow generator *)

Section Generator.
Local Open Scope Q_scope.

(** [Math.floor(Math.random() * span)] is one of 0 .. span-1 as soon as the
    product of [span] with the largest double below 1 rounds below [span]. *)
Lemma floor_random_scaled (r : Q) (span : Z) :
  random_value r ->
  0 <= inject_Z span ->
  Qfloor (round ((1 - 2 ^ (-53)) * inject_Z span)) = (span - 1)%Z ->
  (0 <= Math_floor (Fmul r (inject_Z span)) <= span - 1)%Z.
Proof.
  intros [[Hr _] [H0 H1]] Hs Htop. unfold Math_floor, Fmul. split.
  - change 0%Z with (Qfloor 0). apply Qfloor_resp_le.
    apply round_nonneg, Qmult_le_0_compat; assumption.
  - rewrite <- Htop. apply Qfloor_resp_le, round_mono.
    apply Qmult_le_compat_r; [|exact Hs].
    apply double_below_one; assumption.
Qed.

Lemma gen_flow_normal (r : Q) :
  random_value r -> (1 <= gen_flow false r <= 12)%Z.
Proof.
  intros H. unfold gen_flow.
  pose proof (floor_random_scaled r 12 H) as B.
  assert (0 <= Math_floor (Fmul r (inject_Z 12)) <= 12 - 1)%Z; [|lia].
  apply B; [discriminate | vm_compute; reflexivity].
Qed.

Lemma gen_flow_forced (r : Q) :
  random_value r -> (11 <= gen_flow true r <= 13)%Z.
Proof.
  intros H. unfold gen_flow.
  pose proof (floor_random_scaled r 3 H) as B.
  assert (0 <= Math_floor (Fmul r (inject_Z 3)) <= 3 - 1)%Z; [|lia].
  apply B; [discriminate | vm_compute; reflexivity].
Qed.

Lemma gen_flow_range (f : bool) (r : Q) :
  random_value r -> (1 <= gen_flow f r <= 13)%Z.
Proof.
  intros H. destruct f.
  - pose proof (gen_flow_forced r H). lia.
  - pose proof (gen_flow_normal r H). lia.
Qed.

End Generator.

(* ------------------------------------------------------------------ *)
(** ** The liters accumulator *)

Section Liters.
Local Open Scope Q_scope.

(** [TICK_MS / 60000] is the double nearest to 1/30. *)
Lemma liters_per_unit_flow :
  Fdiv (inject_Z TICK_MS) (inject_Z 60000) = 4803839602528529 # 144115188075855872.
Proof. vm_compute. reflexivity. Qed.

Lemma tick_liters_bounds (flow : Z) :
  (0 <= flow <= 13)%Z -> 0 <= tick_liters flow /\ tick_liters flow <= 1.
Proof.
  intros [Hlo Hhi]. unfold tick_liters, Fmul. rewrite liters_per_unit_flow.
  apply inject_Z_le in Hlo, Hhi. split.
  - apply round_nonneg, Qmult_le_0_compat; [exact Hlo | discriminate].
  - apply Qle_trans
      with (round (inject_Z 13 * (4803839602528529 # 144115188075855872))).
    + apply round_mono, Qmult_le_compat_r; [exact Hhi | discriminate].
    + vm_compute. discriminate.
Qed.

Lemma tick_flow_total (s : State) (flow : Z) (ts : string) :
  totalLiters (tick_flow s flow ts) = Fadd (totalLiters s) (tick_liters flow).
Proof. reflexivity. Qed.

(** Adding the liters of a tick never lowers the total. *)
Lemma tick_flow_total_le (s : State) (flow : Z) (ts : string) :
  is_double (totalLiters s) -> (0 <= flow <= 13)%Z ->
  totalLiters s <= totalLiters (tick_flow s flow ts).
Proof.
  intros [Hd _] Hf. rewrite tick_flow_total. unfold Fadd.
  destruct (tick_liters_bounds flow Hf) as [Hx _].
  rewrite <- Hd at 1. apply round_mono.
  rewrite <- (Qplus_0_r (totalLiters s)) at 1.
  apply Qplus_le_r, Hx.
Qed.

(** The sum stays a finite double: the addition cannot overflow. *)
Lemma tick_flow_total_double (s : State) (flow : Z) (ts : string) :
  is_double (totalLiters s) -> (0 <= flow <= 13)%Z ->
  is_double (totalLiters (tick_flow s flow ts)).
Proof.
  intros [_ Hr] Hf. rewrite tick_flow_total. unfold Fadd.
  destruct (tick_liters_bounds flow Hf) as [Hx0 Hx1].
  apply Qabs_Qle_condition in Hr. destruct Hr as [Hlo Hhi].
  apply round_is_double.
  - apply Qle_trans with (totalLiters s); [exact Hlo|].
    rewrite <- (Qplus_0_r (totalLiters s)) at 1. apply Qplus_le_r, Hx0.
  - apply Qplus_le_compat; assumption.
Qed.

Lemma tick_total_le (s : State) (r : Q) (ts : string) :
  is_double (totalLiters s) -> random_value r ->
  totalLiters s <= totalLiters (tick false s r ts).
Proof.
  intros Hd Hr. apply tick_flow_total_le; [exact Hd|].
  pose proof (gen_flow_range (forceLeak s) r Hr). lia.
Qed.

Lemma tick_total_double (s : State) (r : Q) (ts : string) :
  is_double (totalLiters s) -> random_value r ->
  is_double (totalLiters (tick false s r ts)).
Proof.
  intros Hd Hr. apply tick_flow_total_double; [exact Hd|].
  pose proof (gen_flow_range (forceLeak s) r Hr). lia.
Qed.

Lemma zero_is_double : is_double 0.
Proof. split; [vm_compute; reflexivity | vm_compute; discriminate]. Qed.

End Liters.

(* ------------------------------------------------------------------ *)
(** ** The bounded history *)

Section History.
Context {A : Type}.
Implicit Types (prev : list A) (x : A).

(** [push_point] keeps the last [MAX_POINTS] elements of [prev ++ [x]]. *)
Lemma push_point_skipn prev x :
  push_point prev x = skipn (length prev + 1 - 30) (prev ++ [x]).
Proof.
  unfold push_point, slice, MAX_POINTS.
  rewrite length_app. simpl length.
  destruct (Z.gtb_spec (Z.of_nat (length prev + 1)) 30) as [H|H].
  - change (- (30) <? 0)%Z with true. cbv iota. f_equal. lia.
  - replace (length prev + 1 - 30)%nat with 0%nat by lia. reflexivity.
Qed.

Lemma push_point_length prev x :
  length (push_point prev x) = Nat.min (length prev + 1) 30.
Proof.
  rewrite push_point_skipn, length_skipn, length_app. simpl. lia.
Qed.

(** Nothing is dropped while there is room. *)
Lemma push_point_room prev x :
  (length prev < 30)%nat -> push_point prev x = prev ++ [x].
Proof.
  intros H. rewrite push_point_skipn.
  replace (length prev + 1 - 30)%nat with 0%nat by lia. reflexivity.
Qed.

(** What is dropped is a prefix of the old sequence: its oldest elements. *)
Lemma push_point_fifo prev x :
  prev ++ [x] = firstn (length prev + 1 - 30) prev ++ push_point prev x.
Proof.
  rewrite push_point_skipn.
  rewrite <- (firstn_skipn (length prev + 1 - 30) (prev ++ [x])) at 1.
  f_equal. rewrite firstn_app.
  replace (length prev + 1 - 30 - length prev)%nat with 0%nat by lia.
  simpl. apply app_nil_r.
Qed.

(** A full sequence loses exactly its oldest element. *)
Lemma push_point_full (old : A) prev x :
  length (old :: prev) = 30%nat -> push_point (old :: prev) x = prev ++ [x].
Proof.
  intros H. rewrite push_point_skipn. rewrite H. reflexivity.
Qed.

End History.

Lemma combine_snoc {A B : Type} (l1 : list A) (l2 : list B) (a : A) (b : B) :
  length l1 = length l2 ->
  combine (l1 ++ [a]) (l2 ++ [b]) = combine l1 l2 ++ [(a, b)].
Proof.
  revert l2. induction l1 as [|x l1 IH]; intros [|y l2] H; simpl in *;
    try discriminate; [reflexivity|].
  f_equal. apply IH. lia.
Qed.

Lemma combine_skipn {A B : Type} (n : nat) (l1 : list A) (l2 : list B) :
  combine (skipn n l1) (skipn n l2) = skipn n (combine l1 l2).
Proof.
  revert l1 l2. induction n as [|n IH]; intros l1 l2; [reflexivity|].
  destruct l1 as [|x l1]; [reflexivity|].
  destruct l2 as [|y l2]; simpl.
  - apply combine_nil.
  - apply IH.
Qed.

(** Pushing a label and a value onto aligned sequences pushes the pair onto
    the combined history. *)
Lemma push_point_combine {A B : Type} (l1 : list A) (l2 : list B) (a : A) (b : B) :
  length l1 = length l2 ->
  combine (push_point l1 a) (push_point l2 b) = push_point (combine l1 l2) (a, b).
Proof.
  intros H. rewrite !push_point_skipn.
  rewrite length_combine, <- H, Nat.min_id.
  rewrite combine_skipn, combine_snoc by exact H. reflexivity.
Qed.

(* ------------------------------------------------------------------ *)
(** ** The leak detector *)

Local Open Scope Z_scope.

Lemma tick_live (s : State) (r : Q) (ts : string) :
  tick false s r ts = tick_flow s (gen_flow (forceLeak s) r) ts.
Proof. reflexivity. Qed.

Lemma tick_cancelled (s : State) (r : Q) (ts : string) : tick true s r ts = s.
Proof. reflexivity. Qed.

Lemma tick_flow_count (s : State) (flow : Z) (ts : string) :
  highCount (tick_flow s flow ts)
  = if flow >? LEAK_THRESHOLD then highCount s + 1 else 0.
Proof. reflexivity. Qed.

Lemma tick_flow_flag (s : State) (flow : Z) (ts : string) :
  leakDetected (tick_flow s flow ts)
  = if highCount (tick_flow s flow ts) >=? LEAK_CONSEC_TICKS
    then true else leakDetected s.
Proof. reflexivity. Qed.

Lemma tick_flow_high (s : State) (flow : Z) (ts : string) :
  flow > LEAK_THRESHOLD -> highCount (tick_flow s flow ts) = highCount s + 1.
Proof.
  intros H. rewrite tick_flow_count.
  destruct (Z.gtb_spec flow LEAK_THRESHOLD); [reflexivity | lia].
Qed.

Lemma tick_flow_low (s : State) (flow : Z) (ts : string) :
  flow <= LEAK_THRESHOLD -> highCount (tick_flow s flow ts) = 0.
Proof.
  intros H. rewrite tick_flow_count.
  destruct (Z.gtb_spec flow LEAK_THRESHOLD); [lia | reflexivity].
Qed.

Lemma tick_flow_raises (s : State) (flow : Z) (ts : string) :
  highCount (tick_flow s flow ts) >= LEAK_CONSEC_TICKS ->
  leakDetected (tick_flow s flow ts) = true.
Proof.
  intros H. rewrite tick_flow_flag.
  destruct (Z.geb_spec (highCount (tick_flow s flow ts)) LEAK_CONSEC_TICKS);
    [reflexivity | lia].
Qed.

Lemma tick_flow_keeps (s : State) (flow : Z) (ts : string) :
  highCount (tick_flow s flow ts) < LEAK_CONSEC_TICKS ->
  leakDetected (tick_flow s flow ts) = leakDetected s.
Proof.
  intros H. rewrite tick_flow_flag.
  destruct (Z.geb_spec (highCount (tick_flow s flow ts)) LEAK_CONSEC_TICKS);
    [lia | reflexivity].
Qed.

(** The alert is never lowered by a tick. *)
Lemma tick_flow_sticky (s : State) (flow : Z) (ts : string) :
  leakDetected s = true -> leakDetected (tick_flow s flow ts) = true.
Proof.
  intros H. rewrite tick_flow_flag, H. destruct (_ >=? _); reflexivity.
Qed.

Lemma tick_sticky (c : bool) (s : State) (r : Q) (ts : string) :
  leakDetected s = true -> leakDetected (tick c s r ts) = true.
Proof.
  intros H. destruct c; [exact H | apply tick_flow_sticky, H].
Qed.

(** C1. On every tick a flow strictly above [LEAK_THRESHOLD] increments the
    counter by 1 and any other flow (one equal to the threshold included)
    resets it to 0; the alert is raised whenever the resulting count is at
    least [LEAK_CONSEC_TICKS], and is otherwise left as it was.  With the
    constants 8 and 3, from a fresh detector the flows 9, 10, 9 leave the
    alert raised after the third tick, and the flows 9, 10, 5 never raise
    it (not after any of the three ticks). *)
Theorem leak_rule :
  (forall (s : State) (r : Q) (ts : string),
      let s' := tick false s r ts in
      let flow := gen_flow (forceLeak s) r in
      s' = tick_flow s flow ts /\ currentFlow s' = flow)
  /\ (forall (s : State) (flow : Z) (ts : string),
      let s' := tick_flow s flow ts in
      (flow > LEAK_THRESHOLD -> highCount s' = highCount s + 1) /\
      (flow <= LEAK_THRESHOLD -> highCount s' = 0) /\
      (highCount s' >= LEAK_CONSEC_TICKS -> leakDetected s' = true) /\
      (highCount s' < LEAK_CONSEC_TICKS -> leakDetected s' = leakDetected s))
  /\ LEAK_THRESHOLD = 8 /\ LEAK_CONSEC_TICKS = 3
  /\ (forall (s : State) (t1 t2 t3 : string),
      highCount s = 0 -> leakDetected s = false ->
      leakDetected (run_flows s [(9, t1); (10, t2); (9, t3)]) = true)
  /\ (forall (s : State) (t1 t2 t3 : string) (n : nat),
      highCount s = 0 -> leakDetected s = false ->
      leakDetected (run_flows s (firstn n [(9, t1); (10, t2); (5, t3)])) = false).
Proof.
  split; [|split; [|split; [|split; [|split]]]]; try reflexivity.
  - intros s r ts. split; reflexivity.
  - intros s flow ts s'. repeat split.
    + apply tick_flow_high.
    + apply tick_flow_low.
    + apply tick_flow_raises.
    + apply tick_flow_keeps.
  - intros s t1 t2 t3 Hc Hf. simpl. rewrite Hc. reflexivity.
  - intros s t1 t2 t3 n Hc Hf.
    destruct n as [|[|[|n]]]; cbn [firstn]; rewrite ?firstn_nil;
      simpl; rewrite ?Hc; simpl; exact Hf.
Qed.

Lemma leak_rule_witness :
  (highCount init = 0 /\ leakDetected init = false)
  /\ leakDetected (run_flows init [(9, clock1); (10, clock2); (9, clock3)]) = true
  /\ leakDetected (run_flows init (firstn 3 [(9, clock1); (10, clock2); (5, clock3)])) = false
  /\ (9 > LEAK_THRESHOLD /\ highCount (tick_flow init 9 clock1) = highCount init + 1)
  /\ (8 <= LEAK_THRESHOLD /\ highCount (tick_flow flagged_example 8 clock1) = 0).
Proof.
  destruct leak_rule as [_ [R [_ [_ [S1 S2]]]]].
  assert (H1 : highCount init = 0) by reflexivity.
  assert (H2 : leakDetected init = false) by reflexivity.
  assert (H3 : 9 > LEAK_THRESHOLD) by reflexivity.
  assert (H4 : 8 <= LEAK_THRESHOLD) by (unfold LEAK_THRESHOLD; lia).
  split; [split; assumption|].
  split; [exact (S1 init clock1 clock2 clock3 H1 H2)|].
  split; [exact (S2 init clock1 clock2 clock3 3%nat H1 H2)|].
  split.
  - split; [exact H3 | exact (proj1 (R init 9 clock1) H3)].
  - split; [exact H4 | exact (proj1 (proj2 (R flagged_example 8 clock1)) H4)].
Defined.

(** *** The alert is sticky *)

Lemma step_keeps_alert (s : State) (o : Op) :
  leakDetected s = true -> keeps_alert o -> leakDetected (step s o) = true.
Proof.
  intros H [Hack Hreset]. destruct o as [r ts| | |].
  - exact (tick_sticky false s r ts H).
  - contradiction.
  - contradiction.
  - exact H.
Qed.

Lemma run_keeps_alert (ops : list Op) (s : State) :
  leakDetected s = true -> Forall keeps_alert ops -> leakDetected (run s ops) = true.
Proof.
  intros H F. revert s H.
  induction F as [|o ops Ho _ IH]; intros s H; [exact H|].
  apply IH. apply step_keeps_alert; assumption.
Qed.

(** C2, as the specification states it, fails: [resetDay] lowers the alert
    as well, so [acknowledgeAlert] is not the only operation that clears
    it.  Here the alert is raised, [resetDay] is applied, and it is
    lowered. *)
Lemma resetDay_clears_alert :
  leakDetected flagged_example = true
  /\ leakDetected (step flagged_example OpResetDay) = false
  /\ OpResetDay <> OpAcknowledge.
Proof.
  split; [reflexivity|]. split; [reflexivity | discriminate].
Qed.

(** C2 (amended).  Once the alert is raised no tick lowers it, whatever its
    flow (cancelled or not), and neither does the simulation toggle: it
    stays raised along every run of operations that holds neither
    [acknowledgeAlert] nor [resetDay].  These two are the only operations
    that lower it, and each resets the counter to 0 as it does. *)
Theorem alert_sticky (s : State) :
  leakDetected s = true ->
  (forall (c : bool) (r : Q) (ts : string), leakDetected (tick c s r ts) = true)
  /\ (forall (flow : Z) (ts : string),
        flow <= LEAK_THRESHOLD -> leakDetected (tick_flow s flow ts) = true)
  /\ (forall ops : list Op,
        Forall keeps_alert ops -> leakDetected (run s ops) = true)
  /\ (forall o : Op,
        leakDetected (step s o) = false ->
        (o = OpAcknowledge \/ o = OpResetDay) /\ highCount (step s o) = 0)
  /\ leakDetected (acknowledgeAlert s) = false
  /\ highCount (acknowledgeAlert s) = 0
  /\ leakDetected (resetDay s) = false
  /\ highCount (resetDay s) = 0.
Proof.
  intros H.
  assert (Cleared : forall o : Op,
             leakDetected (step s o) = false ->
             (o = OpAcknowledge \/ o = OpResetDay) /\ highCount (step s o) = 0).
  { intros o Hoff. destruct o as [r ts| | |].
    - pose proof (tick_sticky false s r ts H) as T.
      unfold step in Hoff. congruence.
    - split; [left|]; reflexivity.
    - split; [right|]; reflexivity.
    - unfold step, toggleForceLeak in Hoff. simpl in Hoff. congruence. }
  split; [intros c r ts; apply tick_sticky, H|].
  split; [intros flow ts _; apply tick_flow_sticky, H|].
  split; [intros ops F; apply run_keeps_alert; assumption|].
  split; [exact Cleared|].
  repeat split.
Qed.

Lemma alert_sticky_witness :
  leakDetected flagged_example = true
  /\ leakDetected (tick false flagged_example (3 # 8) clock1) = true
  /\ leakDetected (run flagged_example [OpTick (3 # 8) clock1; OpToggle; OpTick (1 # 4) clock2]) = true
  /\ highCount (step flagged_example OpAcknowledge) = 0.
Proof.
  assert (H : leakDetected flagged_example = true) by reflexivity.
  destruct (alert_sticky flagged_example H) as [T [_ [R [O _]]]].
  split; [exact H|].
  split; [exact (T false (3 # 8)%Q clock1)|].
  split.
  - apply R. repeat constructor; discriminate.
  - apply (O OpAcknowledge). reflexivity.
Defined.

(* ------------------------------------------------------------------ *)
(** ** The generated flow *)

Lemma draw_high_random : random_value draw_high.
Proof.
  repeat split; try (vm_compute; reflexivity); vm_compute; discriminate.
Qed.

Lemma draw_low_random : random_value draw_low.
Proof.
  repeat split; try (vm_compute; reflexivity); vm_compute; discriminate.
Qed.

Lemma draw_max_random : random_value draw_max.
Proof.
  repeat split; try (vm_compute; reflexivity); vm_compute; discriminate.
Qed.

(** C3. On every tick, whatever double in [0, 1) [Math.random()] returns,
    the generated flow (the value stored in [currentFlow] and pushed onto
    [series]) is an integer from 1 to 12 when [forceLeak] is false and an
    integer from 11 to 13 when it is true. *)
Theorem flow_range (s : State) (r : Q) (ts : string) :
  random_value r ->
  let flow := currentFlow (tick false s r ts) in
  flow = gen_flow (forceLeak s) r
  /\ (forceLeak s = false -> 1 <= flow <= 12)
  /\ (forceLeak s = true -> 11 <= flow <= 13).
Proof.
  intros Hr flow. split; [reflexivity|]. subst flow. rewrite tick_live. simpl.
  split; intros E; rewrite E.
  - apply gen_flow_normal, Hr.
  - apply gen_flow_forced, Hr.
Qed.

Lemma flow_range_witness :
  random_value draw_max
  /\ forceLeak init = false
  /\ forceLeak (toggleForceLeak init) = true
  /\ 1 <= currentFlow (tick false init draw_max clock1) <= 12
  /\ 11 <= currentFlow (tick false (toggleForceLeak init) draw_max clock1) <= 13.
Proof.
  pose proof draw_max_random as Hr.
  assert (E1 : forceLeak init = false) by reflexivity.
  assert (E2 : forceLeak (toggleForceLeak init) = true) by reflexivity.
  split; [exact Hr|]. split; [exact E1|]. split; [exact E2|]. split.
  - exact (proj1 (proj2 (flow_range init draw_max clock1 Hr)) E1).
  - exact (proj2 (proj2 (flow_range (toggleForceLeak init) draw_max clock1 Hr)) E2).
Defined.

(** Both ends of each range are reached. *)
Example flow_extremes :
  gen_flow false 0 = 1 /\ gen_flow false draw_max = 12
  /\ gen_flow true 0 = 11 /\ gen_flow true draw_max = 13.
Proof. repeat split; vm_compute; reflexivity. Qed.

Example flow_examples :
  gen_flow false draw_high = 9 /\ gen_flow false draw_low = 5
  /\ gen_flow true draw_high = 13 /\ gen_flow true draw_low = 12.
Proof. repeat split; vm_compute; reflexivity. Qed.

(* ------------------------------------------------------------------ *)
(** ** The chart data *)

Lemma tick_flow_bounded (s : State) (flow : Z) (ts : string) :
  bounded (tick_flow s flow ts).
Proof.
  unfold bounded, MAX_POINTS. simpl. rewrite !push_point_length. lia.
Qed.

Lemma step_bounded (s : State) (o : Op) : bounded s -> bounded (step s o).
Proof.
  intros H. destruct o as [r ts| | |].
  - apply tick_flow_bounded.
  - exact H.
  - unfold bounded, MAX_POINTS. simpl. lia.
  - exact H.
Qed.

Lemma run_bounded (ops : list Op) (s : State) : bounded s -> bounded (run s ops).
Proof.
  revert s. induction ops as [|o ops IH]; intros s H; [exact H|].
  apply IH, step_bounded, H.
Qed.

Lemma init_bounded : bounded init.
Proof. unfold bounded, MAX_POINTS. simpl. lia. Qed.

Lemma history_length (s : State) :
  bounded s -> Z.of_nat (length (history s)) <= MAX_POINTS.
Proof.
  intros [H1 H2]. unfold history. rewrite length_combine. lia.
Qed.

Lemma tick_history (s : State) (r : Q) (ts : string) :
  aligned s ->
  history (tick false s r ts)
  = push_point (history s) (ts, currentFlow (tick false s r ts)).
Proof.
  intros A. rewrite tick_live. unfold history. simpl.
  apply push_point_combine, A.
Qed.

(** C4. The history never holds more than [MAX_POINTS] samples: the bound
    holds at mount, every operation (tick, [acknowledgeAlert], [resetDay],
    the toggle) preserves it, so it holds after every run of operations,
    and a tick or a [resetDay] establishes it from any state.  A tick
    appends the new sample at the back; when that makes more than
    [MAX_POINTS], what is dropped is a prefix of the old sequence (its
    oldest samples) and the rest keeps its order: a full sequence loses
    exactly its first element.  This holds of the values, of the labels
    and, when the two line up, of the history of (label, value) pairs. *)
Theorem history_bounded_fifo :
  (forall ops : list Op,
      bounded (run init ops) /\
      Z.of_nat (length (history (run init ops))) <= MAX_POINTS)
  /\ (forall (s : State) (o : Op), bounded s -> bounded (step s o))
  /\ (forall (s : State) (r : Q) (ts : string), bounded (tick false s r ts))
  /\ (forall s : State, bounded (resetDay s))
  /\ (forall (s : State) (r : Q) (ts : string),
      let s' := tick false s r ts in
      let flow := currentFlow s' in
      let dropped := (length (series s) + 1 - Z.to_nat MAX_POINTS)%nat in
      series s ++ [flow] = firstn dropped (series s) ++ series s'
      /\ (Z.of_nat (length (series s)) < MAX_POINTS -> series s' = series s ++ [flow])
      /\ (length (series s) = Z.to_nat MAX_POINTS ->
          series s' = tl (series s) ++ [flow]))
  /\ (forall (s : State) (r : Q) (ts : string),
      let s' := tick false s r ts in
      let dropped := (length (labels s) + 1 - Z.to_nat MAX_POINTS)%nat in
      labels s ++ [ts] = firstn dropped (labels s) ++ labels s'
      /\ (Z.of_nat (length (labels s)) < MAX_POINTS -> labels s' = labels s ++ [ts])
      /\ (length (labels s) = Z.to_nat MAX_POINTS ->
          labels s' = tl (labels s) ++ [ts]))
  /\ (forall (s : State) (r : Q) (ts : string),
      aligned s ->
      let s' := tick false s r ts in
      let dropped := (length (history s) + 1 - Z.to_nat MAX_POINTS)%nat in
      history s ++ [(ts, currentFlow s')] = firstn dropped (history s) ++ history s').
Proof.
  split; [|split; [|split; [|split; [|split; [|split]]]]].
  - intros ops. pose proof (run_bounded ops init init_bounded) as B.
    split; [exact B | apply history_length, B].
  - apply step_bounded.
  - intros s r ts. apply tick_flow_bounded.
  - intros s. unfold bounded, MAX_POINTS. simpl. lia.
  - intros s r ts s' flow dropped. subst s' flow dropped.
    rewrite tick_live. simpl. change (Z.to_nat MAX_POINTS) with 30%nat.
    split; [apply push_point_fifo|]. split.
    + intros H. apply push_point_room. unfold MAX_POINTS in H. lia.
    + intros H. destruct (series s) as [|old rest]; [discriminate|].
      apply push_point_full, H.
  - intros s r ts s' dropped. subst s' dropped.
    rewrite tick_live. simpl. change (Z.to_nat MAX_POINTS) with 30%nat.
    split; [apply push_point_fifo|]. split.
    + intros H. apply push_point_room. unfold MAX_POINTS in H. lia.
    + intros H. destruct (labels s) as [|old rest]; [discriminate|].
      apply push_point_full, H.
  - intros s r ts A s' dropped. subst s' dropped.
    rewrite (tick_history s r ts A). apply push_point_fifo.
Qed.

(** On the full chart the next tick drops the oldest sample and appends
    the new one. *)
Example full_chart_tick :
  series full_chart
  = [1; 1; 2; 3; 4; 4; 5; 6; 7; 7; 8; 9; 10; 10; 11; 12;
     1; 1; 2; 3; 4; 4; 5; 6; 7; 7; 8; 9; 10; 10]
  /\ series (tick false full_chart draw_low clock2)
     = [1; 2; 3; 4; 4; 5; 6; 7; 7; 8; 9; 10; 10; 11; 12;
        1; 1; 2; 3; 4; 4; 5; 6; 7; 7; 8; 9; 10; 10; 5]
  /\ length (labels (tick false full_chart draw_low clock2)) = 30%nat
  /\ leakDetected full_chart = true.
Proof. repeat split; vm_compute; reflexivity. Qed.

Lemma history_bounded_fifo_witness :
  bounded full_chart
  /\ bounded (step full_chart OpAcknowledge)
  /\ length (series full_chart) = Z.to_nat MAX_POINTS
  /\ series (tick false full_chart draw_low clock2)
     = tl (series full_chart) ++ [currentFlow (tick false full_chart draw_low clock2)]
  /\ Z.of_nat (length (series init)) < MAX_POINTS
  /\ series (tick false init draw_low clock2)
     = series init ++ [currentFlow (tick false init draw_low clock2)].
Proof.
  destruct history_bounded_fifo as [_ [P [_ [_ [F _]]]]].
  assert (B : bounded full_chart) by (split; vm_compute; discriminate).
  assert (L : length (series full_chart) = Z.to_nat MAX_POINTS) by reflexivity.
  assert (R : Z.of_nat (length (series init)) < MAX_POINTS) by reflexivity.
  split; [exact B|]. split; [exact (P full_chart OpAcknowledge B)|].
  split; [exact L|].
  split; [exact (proj2 (proj2 (F full_chart draw_low clock2)) L)|].
  split; [exact R|].
  exact (proj1 (proj2 (F init draw_low clock2)) R).
Defined.

(* ------------------------------------------------------------------ *)
(** ** The total volume *)

(** The liters of a tick: the new total is the JavaScript sum of the old
    one and [flow * (TICK_MS / 60000)], [flow] being the value generated on
    that tick. *)
Lemma tick_total_sum (s : State) (r : Q) (ts : string) :
  totalLiters (tick false s r ts)
  = Fadd (totalLiters s)
         (Fmul (inject_Z (currentFlow (tick false s r ts)))
               (Fdiv (inject_Z TICK_MS) (inject_Z 60000))).
Proof. reflexivity. Qed.

(** The first tick after mount with a flow of 9 L/min: 9 * (2000 / 60000)
    is the double 0.3. *)
Example liters_first_tick :
  totalLiters (tick false init draw_high clock1) = Fdiv 3 10
  /\ currentFlow (tick false init draw_high clock1) = 9.
Proof. split; vm_compute; reflexivity. Qed.

Lemma step_total_double (s : State) (o : Op) :
  valid_op o -> is_double (totalLiters s) -> is_double (totalLiters (step s o)).
Proof.
  intros V H. destruct o as [r ts| | |].
  - apply tick_total_double; assumption.
  - exact H.
  - apply zero_is_double.
  - exact H.
Qed.

Lemma run_total_double (ops : list Op) (s : State) :
  Forall valid_op ops -> is_double (totalLiters s) ->
  is_double (totalLiters (run s ops)).
Proof.
  intros F. revert s. induction F as [|o ops V _ IH]; intros s H; [exact H|].
  apply IH, step_total_double; assumption.
Qed.

Lemma tick_trace_sorted (draws : list (Q * string)) (s : State) :
  is_double (totalLiters s) ->
  Forall (fun d => random_value (fst d)) draws ->
  StronglySorted total_le (tick_trace s draws)
  /\ Forall (total_le s) (tick_trace s draws).
Proof.
  intros H F. revert s H.
  induction F as [|d draws Hd _ IH]; intros s H; simpl.
  - split; repeat constructor. apply Qle_refl.
  - pose proof (tick_total_le s (fst d) (snd d) H Hd) as Hle.
    pose proof (tick_total_double s (fst d) (snd d) H Hd) as Hdb.
    destruct (IH _ Hdb) as [Sorted_rest Above].
    assert (Above' : Forall (total_le s) (tick_trace (tick false s (fst d) (snd d)) draws)).
    { eapply Forall_impl; [|exact Above].
      intros b Hb. unfold total_le in *. eapply Qle_trans; eassumption. }
    split; constructor; try assumption. apply Qle_refl.
Qed.

(** C6. Along every sequence of ticks [totalLiters] never goes down, from
    any state the component can be in (its total is a finite double, as it
    is in every state reached from mount) and whatever [Math.random()]
    returns: each state of the trace has a total at most that of every
    later one.  The two other buttons leave the total as it is, so
    [resetDay] is the only operation that lowers it, and right after
    [resetDay] the total is exactly 0. *)
Theorem total_monotone :
  (forall (s : State) (r : Q) (ts : string),
      is_double (totalLiters s) -> random_value r ->
      (totalLiters s <= totalLiters (tick false s r ts))%Q)
  /\ (forall (s : State) (draws : list (Q * string)),
      is_double (totalLiters s) ->
      Forall (fun d => random_value (fst d)) draws ->
      StronglySorted total_le (tick_trace s draws))
  /\ (forall ops : list Op,
      Forall valid_op ops -> is_double (totalLiters (run init ops)))
  /\ (forall (s : State) (o : Op),
      is_double (totalLiters s) -> valid_op o -> o <> OpResetDay ->
      total_le s (step s o))
  /\ (forall s : State, totalLiters (resetDay s) = 0%Q).
Proof.
  split; [|split; [|split; [|split]]].
  - intros s r ts. apply tick_total_le.
  - intros s draws H F. apply (tick_trace_sorted draws s H F).
  - intros ops F. apply run_total_double; [exact F | apply zero_is_double].
  - intros s o H V N. destruct o as [r ts| | |].
    + apply tick_total_le; assumption.
    + apply Qle_refl.
    + contradiction.
    + apply Qle_refl.
  - reflexivity.
Qed.

Lemma total_monotone_witness :
  is_double (totalLiters flagged_example)
  /\ random_value draw_low
  /\ (totalLiters flagged_example
      <= totalLiters (tick false flagged_example draw_low clock1))%Q
  /\ StronglySorted total_le
       (tick_trace flagged_example [(draw_low, clock1); (draw_max, clock2)]).
Proof.
  destruct total_monotone as [Step [Trace _]].
  assert (H : is_double (totalLiters flagged_example)).
  { split; [vm_compute; reflexivity | vm_compute; discriminate]. }
  pose proof draw_low_random as R1. pose proof draw_max_random as R2.
  split; [exact H|]. split; [exact R1|]. split.
  - exact (Step flagged_example draw_low clock1 H R1).
  - apply (Trace flagged_example _ H).
    apply Forall_cons; [exact R1|]. apply Forall_cons; [exact R2|]. apply Forall_nil.
Defined.

(* ------------------------------------------------------------------ *)
(** ** The two buttons *)

(** C7. For every state, [resetDay] empties the history (labels and
    series), sets [totalLiters] to 0, lowers the alert and zeroes the
    counter; [forceLeak] keeps its value. *)
Theorem resetDay_effect (s : State) :
  labels (resetDay s) = []
  /\ series (resetDay s) = []
  /\ history (resetDay s) = []
  /\ totalLiters (resetDay s) = 0%Q
  /\ leakDetected (resetDay s) = false
  /\ highCount (resetDay s) = 0
  /\ forceLeak (resetDay s) = forceLeak s.
Proof. repeat split. Qed.

(** C8. For every state, [acknowledgeAlert] lowers the alert and zeroes the
    counter and changes no other field: the result is the state with just
    these two fields replaced.  Hence on a state whose alert is already
    lowered and whose counter is already 0 it changes nothing at all. *)
Theorem acknowledgeAlert_effect (s : State) :
  acknowledgeAlert s
  = {| currentFlow := currentFlow s; totalLiters := totalLiters s;
       labels := labels s; series := series s;
       leakDetected := false; forceLeak := forceLeak s; highCount := 0 |}
  /\ leakDetected (acknowledgeAlert s) = false
  /\ highCount (acknowledgeAlert s) = 0
  /\ history (acknowledgeAlert s) = history s
  /\ totalLiters (acknowledgeAlert s) = totalLiters s
  /\ (leakDetected s = false -> highCount s = 0 -> acknowledgeAlert s = s)
  /\ acknowledgeAlert (acknowledgeAlert s) = acknowledgeAlert s.
Proof.
  repeat split.
  intros Hf Hc. destruct s as [cf tl lb sr ld fl hc]. simpl in *.
  subst. reflexivity.
Qed.

Lemma acknowledgeAlert_effect_witness :
  leakDetected init = false /\ highCount init = 0 /\ acknowledgeAlert init = init.
Proof.
  assert (Hf : leakDetected init = false) by reflexivity.
  assert (Hc : highCount init = 0) by reflexivity.
  split; [exact Hf|]. split; [exact Hc|].
  destruct (acknowledgeAlert_effect init) as [_ [_ [_ [_ [_ [N _]]]]]].
  exact (N Hf Hc).
Defined.

(* ------------------------------------------------------------------ *)
(** ** Forced leak simulation *)

Lemma forced_tick_counts (s : State) (r : Q) (ts : string) :
  forceLeak s = true -> random_value r ->
  11 <= gen_flow (forceLeak s) r
  /\ gen_flow (forceLeak s) r > LEAK_THRESHOLD
  /\ highCount (tick false s r ts) = highCount s + 1.
Proof.
  intros Hf Hr. rewrite Hf.
  pose proof (gen_flow_forced r Hr) as B.
  assert (G : gen_flow true r > LEAK_THRESHOLD) by (unfold LEAK_THRESHOLD; lia).
  split; [lia|]. split; [exact G|].
  rewrite tick_live, Hf. apply tick_flow_high, G.
Qed.

Lemma forced_tick_inv (s : State) (r : Q) (ts : string) :
  forced_inv s -> random_value r -> forced_inv (tick false s r ts).
Proof.
  intros [Hf Hl] Hr.
  destruct (forced_tick_counts s r ts Hf Hr) as [_ [_ Hc]].
  split; [exact Hf|].
  rewrite tick_live, tick_flow_flag, <- tick_live, Hc, Hl.
  unfold LEAK_CONSEC_TICKS.
  destruct (Z.geb_spec (highCount s + 1) 3), (Z.leb_spec 3 (highCount s)),
    (Z.leb_spec 3 (highCount s + 1)); try reflexivity; lia.
Qed.

Lemma forced_run (draws : list (Q * string)) (s : State) :
  forced_inv s -> Forall (fun d => random_value (fst d)) draws ->
  forced_inv (run_ticks s draws)
  /\ highCount (run_ticks s draws) = highCount s + Z.of_nat (length draws).
Proof.
  intros H F. revert s H.
  induction F as [|d draws Hd _ IH]; intros s H.
  - split; [exact H | simpl; lia].
  - destruct (IH _ (forced_tick_inv s (fst d) (snd d) H Hd)) as [I C].
    split; [exact I|].
    change (run_ticks s (d :: draws))
      with (run_ticks (tick false s (fst d) (snd d)) draws).
    rewrite C.
    destruct H as [Hf _].
    destruct (forced_tick_counts s (fst d) (snd d) Hf Hd) as [_ [_ Hc]].
    rewrite Hc. simpl length. lia.
Qed.

(** C9. From a state with the alert lowered, the counter at 0 and the
    simulation forced, whatever [Math.random()] returns on each tick, the
    alert is raised after exactly [LEAK_CONSEC_TICKS] = 3 ticks: it is
    still lowered after one and after two ticks and raised after the
    third (and stays so).  Every flow generated in forced mode is at least
    11, above the threshold of 8, so every forced tick adds 1 to the
    counter. *)
Theorem forced_leak_after_three (s : State) (draws : list (Q * string)) :
  leakDetected s = false -> highCount s = 0 -> forceLeak s = true ->
  Forall (fun d => random_value (fst d)) draws ->
  highCount (run_ticks s draws) = Z.of_nat (length draws)
  /\ (Z.of_nat (length draws) < LEAK_CONSEC_TICKS ->
      leakDetected (run_ticks s draws) = false)
  /\ (Z.of_nat (length draws) >= LEAK_CONSEC_TICKS ->
      leakDetected (run_ticks s draws) = true)
  /\ LEAK_CONSEC_TICKS = 3
  /\ Forall (fun d => 11 <= gen_flow true (fst d)
                      /\ gen_flow true (fst d) > LEAK_THRESHOLD) draws.
Proof.
  intros Hl Hc Hf F.
  assert (I : forced_inv s).
  { split; [exact Hf|]. rewrite Hl, Hc. reflexivity. }
  destruct (forced_run draws s I F) as [[_ L] C].
  rewrite Hc in C. simpl in C. rewrite C in L.
  split; [exact C|]. split; [|split; [|split; [reflexivity|]]].
  - intros H. rewrite L. apply Z.leb_gt. exact H.
  - intros H. rewrite L. apply Z.leb_le. lia.
  - eapply Forall_impl; [|exact F]. intros d Hd. cbv beta in Hd.
    pose proof (gen_flow_forced (fst d) Hd). unfold LEAK_THRESHOLD. lia.
Qed.

Lemma forced_leak_after_three_witness :
  let s := toggleForceLeak init in
  let draws := [(0%Q, clock1); (draw_low, clock2); (draw_max, clock3)] in
  (leakDetected s = false /\ highCount s = 0 /\ forceLeak s = true)
  /\ Forall (fun d => random_value (fst d)) draws
  /\ leakDetected (run_ticks s (firstn 2 draws)) = false
  /\ leakDetected (run_ticks s draws) = true.
Proof.
  intros s draws.
  assert (Hl : leakDetected s = false) by reflexivity.
  assert (Hc : highCount s = 0) by reflexivity.
  assert (Hf : forceLeak s = true) by reflexivity.
  assert (R0 : random_value 0%Q).
  { split; [apply zero_is_double|]. split; [apply Qle_refl | reflexivity]. }
  assert (F : Forall (fun d => random_value (fst d)) draws).
  { apply Forall_cons; [exact R0|].
    apply Forall_cons; [exact draw_low_random|].
    apply Forall_cons; [exact draw_max_random | apply Forall_nil]. }
  assert (F2 : Forall (fun d => random_value (fst d)) (firstn 2 draws)).
  { apply Forall_cons; [exact R0|].
    apply Forall_cons; [exact draw_low_random | apply Forall_nil]. }
  split; [repeat split|]. split; [exact F|]. split.
  - apply (forced_leak_after_three s (firstn 2 draws) Hl Hc Hf F2). reflexivity.
  - apply (forced_leak_after_three s draws Hl Hc Hf F). discriminate.
Defined.

(* ------------------------------------------------------------------ *)
(** ** Labels and values line up *)

Lemma tick_flow_aligned (s : State) (flow : Z) (ts : string) :
  aligned s -> aligned (tick_flow s flow ts).
Proof.
  unfold aligned. intros H. simpl. rewrite !push_point_length, H. reflexivity.
Qed.

Lemma step_aligned (s : State) (o : Op) : aligned s -> aligned (step s o).
Proof.
  intros H. destruct o as [r ts| | |].
  - apply tick_flow_aligned, H.
  - exact H.
  - reflexivity.
  - exact H.
Qed.

Lemma run_aligned (ops : list Op) (s : State) : aligned s -> aligned (run s ops).
Proof.
  revert s. induction ops as [|o ops IH]; intros s H; [exact H|].
  apply IH, step_aligned, H.
Qed.

(** C10. The label sequence and the value sequence always have the same
    length: they do at mount, every operation preserves it, and so it
    holds after every run of operations.  A tick appends one element to
    each and cuts both to [MAX_POINTS] by the same rule, [resetDay] empties
    both; on aligned sequences a tick therefore pushes the pair (label,
    flow) onto the history the chart reads, so the two line up element for
    element. *)
Theorem history_aligned :
  aligned init
  /\ (forall (s : State) (o : Op), aligned s -> aligned (step s o))
  /\ (forall ops : list Op, aligned (run init ops))
  /\ (forall (s : State) (r : Q) (ts : string),
      let s' := tick false s r ts in
      length (labels s') = Nat.min (length (labels s) + 1) (Z.to_nat MAX_POINTS)
      /\ length (series s') = Nat.min (length (series s) + 1) (Z.to_nat MAX_POINTS))
  /\ (forall (s : State) (r : Q) (ts : string),
      aligned s ->
      let s' := tick false s r ts in
      history s' = push_point (history s) (ts, currentFlow s'))
  /\ (forall s : State, labels (resetDay s) = [] /\ series (resetDay s) = []).
Proof.
  split; [reflexivity|]. split; [apply step_aligned|].
  split; [intros ops; apply run_aligned; reflexivity|].
  split; [|split].
  - intros s r ts s'. subst s'. rewrite tick_live. simpl.
    rewrite !push_point_length. split; reflexivity.
  - intros s r ts H s'. subst s'. apply tick_history, H.
  - intros s. split; reflexivity.
Qed.

Lemma history_aligned_witness :
  aligned flagged_example
  /\ aligned (step flagged_example (OpTick draw_low clock1))
  /\ history (tick false flagged_example draw_low clock1)
     = [(clock1, 9); (clock2, 10); (clock3, 9); (clock1, 5)].
Proof.
  destruct history_aligned as [_ [P [_ [_ [H _]]]]].
  assert (A : aligned flagged_example) by reflexivity.
  split; [exact A|]. split.
  - exact (P flagged_example (OpTick draw_low clock1) A).
  - rewrite (H flagged_example draw_low clock1 A). vm_compute. reflexivity.
Defined.

(* ------------------------------------------------------------------ *)
(** ** The detector as a function of the readings *)

Import Detector View Loop.

Lemma run_flows_snoc (s : State) (fl : list (Z * string)) (x : Z * string) :
  run_flows s (fl ++ [x]) = tick_flow (run_flows s fl) (fst x) (snd x).
Proof. unfold run_flows. rewrite fold_left_app. reflexivity. Qed.

Lemma leading_high_nonneg (l : list Z) : 0 <= leading_high l.
Proof.
  induction l as [|f l IH]; cbn [leading_high]; [lia|]. destruct (high f); lia.
Qed.

Lemma leading_high_length (l : list Z) : leading_high l <= Z.of_nat (length l).
Proof.
  induction l as [|f l IH]; simpl length; cbn [leading_high]; [lia|].
  destruct (high f); lia.
Qed.

Lemma trailing_high_snoc (l : list Z) (x : Z) :
  trailing_high (l ++ [x]) = if high x then 1 + trailing_high l else 0.
Proof. unfold trailing_high. rewrite rev_unit. reflexivity. Qed.

Lemma leading_three (m : list Z) :
  3 <= leading_high m ->
  exists c b a rest, m = c :: b :: a :: rest
                     /\ high a = true /\ high b = true /\ high c = true.
Proof.
  intros H.
  destruct m as [|c [|b [|a rest]]]; cbn [leading_high] in H;
    repeat match type of H with
           | context [high ?f] => destruct (high f) eqn:?
           end; try lia.
  exists c, b, a, rest. repeat split; assumption.
Qed.

Lemma trailing_three (l : list Z) :
  3 <= trailing_high l <->
  exists pre a b c, l = pre ++ [a; b; c]
                    /\ high a = true /\ high b = true /\ high c = true.
Proof.
  unfold trailing_high. split.
  - intros H. destruct (leading_three _ H) as (c & b & a & rest & E & Ha & Hb & Hc).
    exists (rev rest), a, b, c. repeat split; try assumption.
    rewrite <- (rev_involutive l), E. simpl. rewrite <- !app_assoc. reflexivity.
  - intros (pre & a & b & c & E & Ha & Hb & Hc). subst l.
    rewrite rev_app_distr.
    change (rev [a; b; c] ++ rev pre) with (c :: b :: a :: rev pre).
    cbn [leading_high]. rewrite Ha, Hb, Hc.
    pose proof (leading_high_nonneg (rev pre)). lia.
Qed.

Lemma run_flows_count (fl : list (Z * string)) (s : State) :
  highCount (run_flows s fl)
  = trailing_high (map fst fl)
    + (if forallb high (map fst fl) then highCount s else 0).
Proof.
  induction fl as [|x fl IH] using rev_ind; [reflexivity|].
  rewrite run_flows_snoc, tick_flow_count, map_app, forallb_app.
  cbn [map app]. rewrite trailing_high_snoc. cbn [forallb].
  fold (high (fst x)). rewrite IH.
  destruct (high (fst x)), (forallb high (map fst fl)); cbn [andb]; lia.
Qed.

(** X2. The counter is the number of high readings at the end of the
    sequence of ticks, on top of its old value when every reading was
    high; so it is never negative once it was not, never more than the old
    value plus the number of ticks, and from a counter at 0 it is exactly
    the length of the current streak.  It goes on counting while the alert
    is raised. *)
Theorem counter_is_streak (s : State) (fl : list (Z * string)) :
  highCount (run_flows s fl)
  = trailing_high (map fst fl)
    + (if forallb high (map fst fl) then highCount s else 0)
  /\ 0 <= trailing_high (map fst fl) <= Z.of_nat (length fl)
  /\ (highCount s = 0 -> highCount (run_flows s fl) = trailing_high (map fst fl))
  /\ (0 <= highCount s -> 0 <= highCount (run_flows s fl)).
Proof.
  pose proof (run_flows_count fl s) as C.
  assert (B : 0 <= trailing_high (map fst fl) <= Z.of_nat (length fl)).
  { unfold trailing_high. split; [apply leading_high_nonneg|].
    pose proof (leading_high_length (rev (map fst fl))) as L.
    rewrite length_rev, length_map in L. exact L. }
  split; [exact C|]. split; [exact B|]. split.
  - intros H. rewrite C, H. destruct (forallb _ _); lia.
  - intros H. rewrite C. destruct (forallb _ _); lia.
Qed.

Lemma counter_is_streak_witness :
  highCount flagged_example = 3
  /\ highCount (run_flows flagged_example [(12, clock1); (4, clock2); (9, clock3)]) = 1
  /\ highCount (run_flows flagged_example [(12, clock1); (11, clock2)]) = 5.
Proof.
  assert (H0 : 0 <= highCount flagged_example) by (vm_compute; discriminate).
  split; [reflexivity|]. split.
  - rewrite (proj1 (counter_is_streak flagged_example _)). reflexivity.
  - rewrite (proj1 (counter_is_streak flagged_example _)). reflexivity.
Defined.

Lemma has_high_run_extend (l : list Z) (y : Z) :
  has_high_run l -> has_high_run (l ++ [y]).
Proof.
  intros (pre & post & a & b & c & E & H). subst l.
  exists pre, (post ++ [y]), a, b, c. split; [|exact H].
  rewrite <- !app_assoc. reflexivity.
Qed.

Lemma has_high_run_snoc (l : list Z) (y : Z) :
  has_high_run (l ++ [y]) -> has_high_run l \/ 3 <= trailing_high (l ++ [y]).
Proof.
  intros (pre & post & a & b & c & E & H).
  destruct post as [|z post] using rev_ind.
  - right. apply trailing_three. exists pre, a, b, c. split; [exact E | exact H].
  - left. clear IHpost.
    replace (pre ++ [a; b; c] ++ post ++ [z])
      with ((pre ++ [a; b; c] ++ post) ++ [z]) in E
      by (rewrite <- !app_assoc; reflexivity).
    apply app_inj_tail in E. destruct E as [E _].
    exists pre, post, a, b, c. split; [exact E | exact H].
Qed.

Lemma run_flows_flag (fl : list (Z * string)) (s : State) :
  highCount s = 0 -> leakDetected s = false ->
  (leakDetected (run_flows s fl) = true <-> has_high_run (map fst fl)).
Proof.
  intros Hc Hf.
  induction fl as [|x fl IH] using rev_ind.
  - simpl. rewrite Hf. split; [discriminate|].
    intros (pre & post & a & b & c & E & _).
    destruct pre; discriminate.
  - rewrite run_flows_snoc, map_app. simpl map.
    pose proof (run_flows_count (fl ++ [x]) s) as C.
    rewrite run_flows_snoc, map_app, Hc in C. simpl map in C.
    assert (C' : highCount (tick_flow (run_flows s fl) (fst x) (snd x))
                 = trailing_high (map fst fl ++ [fst x]))
      by (rewrite C; destruct (forallb _ _); lia).
    rewrite tick_flow_flag, C'. unfold LEAK_CONSEC_TICKS.
    destruct (Z.geb_spec (trailing_high (map fst fl ++ [fst x])) 3) as [G|G].
    + split; [|reflexivity]. intros _.
      apply trailing_three in G. destruct G as (pre & a & b & c & E & H).
      exists pre, [], a, b, c. split; [exact E | exact H].
    + rewrite IH. split; [apply has_high_run_extend|].
      intros H. destruct (has_high_run_snoc _ _ H) as [H1|H1]; [exact H1 | lia].
Qed.

(** X1. From a fresh detector (counter 0, alert lowered) the alert is
    raised after a sequence of ticks exactly when three readings in a row
    somewhere in the sequence were above [LEAK_THRESHOLD]; what came
    before or after them does not matter. *)
Theorem alert_iff_high_run (s : State) (fl : list (Z * string)) :
  highCount s = 0 -> leakDetected s = false ->
  (leakDetected (run_flows s fl) = true <-> has_high_run (map fst fl)).
Proof. intros Hc Hf. apply run_flows_flag; assumption. Qed.

Lemma alert_iff_high_run_witness :
  highCount init = 0 /\ leakDetected init = false
  /\ has_high_run (map fst [(3, clock1); (9, clock1); (12, clock2); (10, clock3); (2, clock1)])
  /\ leakDetected
       (run_flows init [(3, clock1); (9, clock1); (12, clock2); (10, clock3); (2, clock1)])
     = true.
Proof.
  assert (Hc : highCount init = 0) by reflexivity.
  assert (Hf : leakDetected init = false) by reflexivity.
  assert (R : has_high_run
                (map fst [(3, clock1); (9, clock1); (12, clock2); (10, clock3); (2, clock1)])).
  { exists [3], [2], 9, 12, 10. repeat split. }
  split; [exact Hc|]. split; [exact Hf|]. split; [exact R|].
  exact (proj2 (alert_iff_high_run init _ Hc Hf) R).
Defined.

(* ------------------------------------------------------------------ *)
(** ** Muting the alert while the leak goes on *)

Lemma forced_after_clear (s : State) (draws : list (Q * string)) :
  forced_inv s -> highCount s = 0 ->
  Forall (fun d => random_value (fst d)) draws ->
  leakDetected (run_ticks s draws) = (LEAK_CONSEC_TICKS <=? Z.of_nat (length draws)).
Proof.
  intros I C F. destruct (forced_run draws s I F) as [[_ L] N].
  rewrite L, N, C. reflexivity.
Qed.

(** X3. While the simulation is forced, "Acknowledge / Mute Alert" lowers
    the alert for two ticks only: whatever [Math.random()] returns, the
    alert is down after one and two further ticks and up again from the
    third on.  "Reset Day" does the same. *)
Theorem mute_lasts_two_ticks (s : State) (draws : list (Q * string)) :
  forceLeak s = true ->
  Forall (fun d => random_value (fst d)) draws ->
  leakDetected (run_ticks (acknowledgeAlert s) draws)
  = (LEAK_CONSEC_TICKS <=? Z.of_nat (length draws))
  /\ leakDetected (run_ticks (resetDay s) draws)
     = (LEAK_CONSEC_TICKS <=? Z.of_nat (length draws))
  /\ LEAK_CONSEC_TICKS = 3.
Proof.
  intros Hf F. split; [|split; [|reflexivity]].
  - apply forced_after_clear; [split; [exact Hf | reflexivity] | reflexivity | exact F].
  - apply forced_after_clear; [split; [exact Hf | reflexivity] | reflexivity | exact F].
Qed.

Lemma mute_lasts_two_ticks_witness :
  let s := step flagged_example OpToggle in
  let draws := [(draw_low, clock1); (draw_high, clock2); (draw_low, clock3)] in
  forceLeak s = true
  /\ leakDetected s = true
  /\ leakDetected (run_ticks (acknowledgeAlert s) (firstn 2 draws)) = false
  /\ leakDetected (run_ticks (acknowledgeAlert s) draws) = true.
Proof.
  intros s draws.
  assert (Hf : forceLeak s = true) by reflexivity.
  assert (F : Forall (fun d => random_value (fst d)) draws).
  { apply Forall_cons; [exact draw_low_random|].
    apply Forall_cons; [exact draw_high_random|].
    apply Forall_cons; [exact draw_low_random | apply Forall_nil]. }
  assert (F2 : Forall (fun d => random_value (fst d)) (firstn 2 draws)).
  { apply Forall_cons; [exact draw_low_random|].
    apply Forall_cons; [exact draw_high_random | apply Forall_nil]. }
  split; [exact Hf|]. split; [reflexivity|]. split.
  - exact (proj1 (mute_lasts_two_ticks s (firstn 2 draws) Hf F2)).
  - exact (proj1 (mute_lasts_two_ticks s draws Hf F)).
Defined.

(* ------------------------------------------------------------------ *)
(** ** Which draws give a high reading *)

Section Draws.
Local Open Scope Q_scope.

Lemma gen_flow_mono (f : bool) (r1 r2 : Q) :
  r1 <= r2 -> (gen_flow f r1 <= gen_flow f r2)%Z.
Proof.
  intros H. unfold gen_flow, Math_floor, Fmul.
  apply Z.add_le_mono_r, Qfloor_resp_le, round_mono.
  apply Qmult_le_compat_r; [exact H|]. destruct f; discriminate.
Qed.

(** Doubles in [1/2, 1) are the multiples of 2^-53: the largest double
    below [k / 2^53] is [(k - 1) / 2^53]. *)
Lemma double_pred_top_binade (r : Q) (k : Z) :
  round r = r -> 0 <= r -> (2 ^ 52 < k <= 2 ^ 53)%Z ->
  r < inject_Z k * 2 ^ (-53) -> r <= inject_Z (k - 1) * 2 ^ (-53).
Proof.
  intros Hr H0 [Hk1 Hk2] Hlt.
  destruct (Qlt_le_dec r (2 ^ (-1))) as [Hs|Hb].
  - apply Qlt_le_weak. eapply Qlt_le_trans; [exact Hs|].
    apply Qle_trans with (inject_Z (2 ^ 52) * 2 ^ (-53)); [discriminate|].
    apply Qmult_le_compat_r; [|apply Qlt_le_weak, pow2_pos].
    apply inject_Z_le. lia.
  - assert (H1 : r < 2 ^ (-1 + 1)).
    { eapply Qlt_le_trans; [exact Hlt|].
      apply Qle_trans with (inject_Z (2 ^ 53) * 2 ^ (-53)); [|discriminate].
      apply Qmult_le_compat_r; [|apply Qlt_le_weak, pow2_pos].
      apply inject_Z_le. exact Hk2. }
    assert (E : ilog2 r = (-1)%Z) by (apply ilog2_unique; assumption).
    pose proof (double_decomp r H0 Hr) as D.
    unfold ulp_exp in D. rewrite E in D.
    change (Z.max (-1 - (prec - 1)) emin) with (-53)%Z in D.
    set (m := rne (r / 2 ^ (-53))) in *.
    assert (Hm : (m < k)%Z).
    { rewrite Zlt_Qlt. apply (Qmult_lt_r _ _ (2 ^ (-53))); [apply pow2_pos|].
      rewrite <- D. exact Hlt. }
    rewrite D. apply Qmult_le_compat_r; [|apply Qlt_le_weak, pow2_pos].
    apply inject_Z_le. lia.
Qed.

Lemma below_draw_cut (r : Q) :
  round r = r -> 0 <= r -> r < draw_cut ->
  r <= 6004799503160660 # 9007199254740992.
Proof.
  intros Hr H0 Hlt.
  assert (B : r <= inject_Z (6004799503160661 - 1) * 2 ^ (-53)).
  { apply (double_pred_top_binade r 6004799503160661 Hr H0); [lia|].
    eapply Qlt_le_trans; [exact Hlt|]. discriminate. }
  eapply Qle_trans; [exact B|]. discriminate.
Qed.

End Draws.

Lemma gen_flow_high_iff (r : Q) :
  random_value r -> (gen_flow false r > LEAK_THRESHOLD <-> (draw_cut <= r)%Q).
Proof.
  intros [[Hr _] [H0 H1]]. split.
  - intros G. apply Qnot_lt_le. intros Hlt.
    pose proof (below_draw_cut r Hr H0 Hlt) as B.
    pose proof (gen_flow_mono false _ _ B) as M.
    assert (E : gen_flow false (6004799503160660 # 9007199254740992) = 8)
      by (vm_compute; reflexivity).
    unfold LEAK_THRESHOLD in G. lia.
  - intros C. pose proof (gen_flow_mono false _ _ C) as M.
    assert (E : gen_flow false draw_cut = 9) by (vm_compute; reflexivity).
    unfold LEAK_THRESHOLD. lia.
Qed.

(** X4. In normal mode a reading is above [LEAK_THRESHOLD] exactly when
    [Math.random()] returned at least 0.6666666666666666, the double just
    below 2/3 (for this draw the product with 12 is rounded up to 8, so
    the reading is 9 and not 8).  The generated flow never goes down when
    the draw goes up, and in forced mode every reading is above the
    threshold. *)
Theorem high_reading_draws (r : Q) :
  random_value r ->
  (gen_flow false r > LEAK_THRESHOLD <-> (draw_cut <= r)%Q)
  /\ gen_flow true r > LEAK_THRESHOLD
  /\ (draw_cut < 2 # 3)%Q
  /\ gen_flow false draw_cut = 9
  /\ (forall (f : bool) (r' : Q), (r <= r')%Q -> gen_flow f r <= gen_flow f r').
Proof.
  intros R.
  split; [|split; [|split; [reflexivity|split; [vm_compute; reflexivity|]]]].
  - apply gen_flow_high_iff, R.
  - pose proof (gen_flow_forced r R). unfold LEAK_THRESHOLD. lia.
  - intros f r' H. apply gen_flow_mono, H.
Qed.

Lemma high_reading_draws_witness :
  random_value draw_cut
  /\ gen_flow false draw_cut > LEAK_THRESHOLD
  /\ random_value draw_low
  /\ ~ (draw_cut <= draw_low)%Q
  /\ ~ gen_flow false draw_low > LEAK_THRESHOLD.
Proof.
  assert (R : random_value draw_cut).
  { repeat split; try (vm_compute; reflexivity); vm_compute; discriminate. }
  assert (N : ~ (draw_cut <= draw_low)%Q).
  { intros H. vm_compute in H. apply H. reflexivity. }
  split; [exact R|]. split.
  - apply (proj1 (high_reading_draws draw_cut R)). apply Qle_refl.
  - split; [exact draw_low_random|]. split; [exact N|].
    intros G. apply N.
    exact (proj1 (proj1 (high_reading_draws draw_low draw_low_random)) G).
Defined.

(* ------------------------------------------------------------------ *)
(** ** What the chart plots *)

Lemma push_point_snoc {A : Type} (prev : list A) (x : A) :
  push_point prev x = skipn (length prev + 1 - 30) prev ++ [x].
Proof.
  rewrite push_point_skipn, skipn_app.
  replace (length prev + 1 - 30 - length prev)%nat with 0%nat by lia.
  reflexivity.
Qed.

Lemma Forall_skipn_keep {A : Type} (P : A -> Prop) (n : nat) (l : list A) :
  Forall P l -> Forall P (skipn n l).
Proof.
  intros H. rewrite <- (firstn_skipn n l) in H.
  apply Forall_app in H. exact (proj2 H).
Qed.

Lemma push_point_Forall {A : Type} (P : A -> Prop) (prev : list A) (x : A) :
  Forall P prev -> P x -> Forall P (push_point prev x).
Proof.
  intros H Hx. rewrite push_point_snoc. apply Forall_app. split.
  - apply Forall_skipn_keep, H.
  - constructor; [exact Hx | constructor].
Qed.

Lemma step_plotted (s : State) (o : Op) :
  valid_op o -> plotted_in_range s -> plotted_in_range (step s o).
Proof.
  intros V H. destruct o as [r ts| | |]; try exact H.
  - unfold plotted_in_range, chartData in *. cbn [snd] in *.
    change (step s (OpTick r ts)) with (tick_flow s (gen_flow (forceLeak s) r) ts).
    cbn [series tick_flow].
    apply push_point_Forall; [exact H|].
    pose proof (gen_flow_range (forceLeak s) r V). unfold suggestedMax. lia.
  - constructor.
Qed.

Lemma run_plotted (ops : list Op) (s : State) :
  Forall valid_op ops -> plotted_in_range s -> plotted_in_range (run s ops).
Proof.
  intros F. revert s. induction F as [|o ops V _ IH]; intros s H; [exact H|].
  apply IH, step_plotted; assumption.
Qed.

(** X5. Every value the chart plots is a reading the generator can give, an
    integer from 1 to 13, so below the suggested top of the axis (14): this
    holds at mount and is kept by every operation, whatever [Math.random()]
    returns. *)
Theorem plotted_values_in_range (ops : list Op) :
  Forall valid_op ops ->
  plotted_in_range (run init ops)
  /\ Forall (fun v => 1 <= v <= 13) (series (run init ops))
  /\ suggestedMax = 14.
Proof.
  intros F.
  assert (H : plotted_in_range (run init ops))
    by (apply run_plotted; [exact F | constructor]).
  split; [exact H|]. split; [|reflexivity].
  eapply Forall_impl; [|exact H]. intros v Hv. cbv beta in Hv.
  unfold suggestedMax in Hv. lia.
Qed.

Lemma plotted_values_in_range_witness :
  let ops := [OpTick draw_max clock1; OpToggle; OpTick draw_max clock2;
              OpAcknowledge; OpTick 0%Q clock3] in
  Forall valid_op ops
  /\ series (run init ops) = [12; 13; 11]
  /\ plotted_in_range (run init ops).
Proof.
  intros ops.
  assert (R0 : random_value 0%Q).
  { split; [apply zero_is_double|]. split; [apply Qle_refl | reflexivity]. }
  assert (F : Forall valid_op ops).
  { repeat (apply Forall_cons || apply Forall_nil);
      try exact draw_max_random; try exact R0; exact I. }
  split; [exact F|]. split; [vm_compute; reflexivity|].
  exact (proj1 (plotted_values_in_range ops F)).
Defined.

Lemma last_push_point {A : Type} (prev : list A) (x d : A) :
  last (push_point prev x) d = x.
Proof. rewrite push_point_snoc. apply last_last. Qed.

Lemma step_shows_latest (s : State) (o : Op) :
  shows_latest s -> shows_latest (step s o).
Proof.
  intros H. destruct o as [r ts| | |]; try exact H.
  - right. unfold chartData. cbn [snd].
    change (step s (OpTick r ts)) with (tick_flow s (gen_flow (forceLeak s) r) ts).
    cbn [series tick_flow currentFlow]. apply last_push_point.
  - left. reflexivity.
Qed.

(** X6. The "Current Flow" card and the chart agree: in every state reached
    from mount the chart is empty (at mount and right after "Reset Day",
    where the card keeps the last reading) or its newest value is
    [currentFlow]; right after a tick the newest value is the flow of that
    tick and the newest label its clock string. *)
Theorem current_flow_is_latest :
  (forall ops : list Op, shows_latest (run init ops))
  /\ (forall (s : State) (r : Q) (ts : string),
      let s' := tick false s r ts in
      last (series s') 0 = currentFlow s'
      /\ last (labels s') EmptyString = ts
      /\ series s' <> [])
  /\ (forall s : State,
      currentFlow (resetDay s) = currentFlow s /\ series (resetDay s) = []).
Proof.
  split; [|split].
  - intros ops.
    assert (G : forall (l : list Op) (s : State), shows_latest s -> shows_latest (run s l)).
    { induction l as [|o l IH]; intros s H; [exact H|].
      apply IH, step_shows_latest, H. }
    apply G. left. reflexivity.
  - intros s r ts s'. subst s'. rewrite tick_live. cbn [series labels tick_flow currentFlow].
    rewrite !last_push_point. split; [reflexivity|]. split; [reflexivity|].
    rewrite push_point_snoc. intros E. apply app_eq_nil in E.
    destruct E as [_ E]. discriminate E.
  - intros s. split; reflexivity.
Qed.

(* ------------------------------------------------------------------ *)
(** ** How far rounding takes the liters from the exact figures *)

Section Accuracy.
Local Open Scope Q_scope.

Lemma Qmult_le_nonneg_l (z x y : Q) : 0 <= z -> x <= y -> z * x <= z * y.
Proof.
  intros Hz H. rewrite (Qmult_comm z x), (Qmult_comm z y).
  apply Qmult_le_compat_r; assumption.
Qed.

(** Below [2^k] rounding moves a value by at most [2^(k-54)], half a unit
    in the last place of the binade under [2^k]. *)
Lemma round_error_below (x : Q) (k : Z) :
  0 <= x -> x < 2 ^ k -> (emin <= k - 53)%Z ->
  Qabs (round x - x) <= 2 ^ (k - 54).
Proof.
  intros H0 Hk He. rewrite (round_of_nonneg x H0).
  destruct (Qlt_le_dec 0 x) as [Hpos|Hzero].
  - eapply Qle_trans; [apply round_pos_error|].
    assert (U : (ulp_exp x <= k - 53)%Z).
    { pose proof (ilog2_lt x k Hpos Hk). unfold ulp_exp, prec. lia. }
    replace (k - 54)%Z with (-1 + (k - 53))%Z by lia.
    rewrite pow2_add. change (2 ^ (-1)) with (1 # 2).
    apply Qmult_le_l; [reflexivity | apply pow2_le, U].
  - assert (E : x == 0) by (apply Qle_antisym; assumption).
    rewrite (round_pos_zero x E).
    assert (Z0 : 0 - x == 0) by (rewrite E; reflexivity).
    rewrite Z0. apply Qlt_le_weak, pow2_pos.
Qed.

Lemma liters_constant_error :
  Qabs ((4803839602528529 # 144115188075855872) - (1 # 30)) <= 2 ^ (-58).
Proof. vm_compute. discriminate. Qed.

Lemma tick_liters_error (flow : Z) :
  (0 <= flow <= 13)%Z ->
  Qabs (tick_liters flow - inject_Z flow * (1 # 30)) <= 2 ^ (-53).
Proof.
  intros [Hlo Hhi]. unfold tick_liters, Fmul. rewrite liters_per_unit_flow.
  apply inject_Z_le in Hlo, Hhi. change (inject_Z 0) with 0 in Hlo.
  change (inject_Z 13) with 13 in Hhi.
  set (f := inject_Z flow) in *.
  set (c := 4803839602528529 # 144115188075855872).
  assert (Hc : 0 <= c) by discriminate.
  assert (P0 : 0 <= f * c) by (apply Qmult_le_0_compat; assumption).
  assert (P1 : f * c < 2 ^ (-1)).
  { apply Qle_lt_trans with (13 * c); [|reflexivity].
    apply Qmult_le_compat_r; assumption. }
  pose proof (round_error_below (f * c) (-1) P0 P1 ltac:(unfold emin; lia)) as E1.
  pose proof liters_constant_error as E2. fold c in E2.
  change (2 ^ (-1 - 54)) with (1 # 36028797018963968) in E1.
  change (2 ^ (-58)) with (1 # 288230376151711744) in E2.
  change (2 ^ (-53)) with (1 # 9007199254740992).
  apply Qabs_Qle_condition in E1, E2. apply Qabs_Qle_condition.
  set (x := round (f * c)) in *.
  assert (L1 : f * (c - (1 # 30)) <= 13 * (1 # 288230376151711744)).
  { apply Qle_trans with (f * (1 # 288230376151711744)).
    - apply Qmult_le_nonneg_l; [exact Hlo | exact (proj2 E2)].
    - apply Qmult_le_compat_r; [exact Hhi | discriminate]. }
  assert (L2 : - (13 * (1 # 288230376151711744)) <= f * (c - (1 # 30))).
  { apply Qle_trans with (f * - (1 # 288230376151711744)).
    - setoid_replace (f * - (1 # 288230376151711744))
        with (- (f * (1 # 288230376151711744))) by ring.
      apply Qopp_le_compat.
      apply Qmult_le_compat_r; [exact Hhi | discriminate].
    - apply Qmult_le_nonneg_l; [exact Hlo | exact (proj1 E2)]. }
  assert (D : x - f * (1 # 30) == (x - f * c) + f * (c - (1 # 30))) by ring.
  rewrite D. destruct E1 as [E1a E1b].
  set (u := x - f * c) in *. set (v := f * (c - (1 # 30))) in *.
  split; lra.
Qed.

End Accuracy.

Section Totals.
Local Open Scope Q_scope.

(** X7. While the total is at most 2^20 liters, a tick adds flow/30 liters
    (the flow of that tick, in L/min, over 2 of the 60 seconds) up to a
    rounding error of at most 2^-32, and the total strictly increases. *)
Theorem tick_adds_thirtieth (s : State) (r : Q) (ts : string) :
  random_value r ->
  0 <= totalLiters s -> totalLiters s <= inject_Z (2 ^ 20) ->
  let s' := tick false s r ts in
  Qabs (totalLiters s' - (totalLiters s + inject_Z (currentFlow s') * (1 # 30)))
    <= 2 ^ (-32)
  /\ totalLiters s < totalLiters s'.
Proof.
  intros R H0 H1 s'. subst s'. rewrite tick_live, tick_flow_total.
  cbn [currentFlow tick_flow].
  pose proof (gen_flow_range (forceLeak s) r R) as [F1 F13].
  set (flow := gen_flow (forceLeak s) r) in *.
  destruct (tick_liters_bounds flow ltac:(lia)) as [X0 X1].
  pose proof (tick_liters_error flow ltac:(lia)) as EX.
  apply inject_Z_le in F1. change (inject_Z 1) with 1 in F1.
  set (f := inject_Z flow) in *. set (x := tick_liters flow) in *.
  set (t := totalLiters s) in *.
  change (inject_Z (2 ^ 20)) with 1048576 in H1.
  assert (Y0 : 0 <= t + x) by lra.
  assert (Y1 : t + x < 2 ^ 21).
  { apply Qle_lt_trans with (1048576 + 1); [lra | reflexivity]. }
  pose proof (round_error_below (t + x) 21 Y0 Y1 ltac:(unfold emin; lia)) as EY.
  unfold Fadd.
  change (2 ^ (21 - 54)) with (1 # 8589934592) in EY.
  change (2 ^ (-53)) with (1 # 9007199254740992) in EX.
  change (2 ^ (-32)) with (1 # 4294967296).
  apply Qabs_Qle_condition in EX, EY.
  set (y := round (t + x)) in *.
  set (g := f * (1 # 30)) in *.
  assert (G : 1 # 30 <= g).
  { unfold g. rewrite <- (Qmult_1_l (1 # 30)) at 1.
    apply Qmult_le_compat_r; [exact F1 | discriminate]. }
  split; [apply Qabs_Qle_condition; split; lra | lra].
Qed.

Lemma tick_adds_thirtieth_witness :
  random_value draw_high
  /\ (0 <= totalLiters flagged_example <= inject_Z (2 ^ 20))
  /\ totalLiters flagged_example
     < totalLiters (tick false flagged_example draw_high clock1).
Proof.
  assert (H0 : 0 <= totalLiters flagged_example) by (vm_compute; discriminate).
  assert (H1 : totalLiters flagged_example <= inject_Z (2 ^ 20))
    by (vm_compute; discriminate).
  split; [exact draw_high_random|]. split; [split; assumption|].
  exact (proj2 (tick_adds_thirtieth flagged_example draw_high clock1
                  draw_high_random H0 H1)).
Defined.

Lemma Math_round_bounds (p : Q) :
  inject_Z (Math_round p) <= p + (1 # 2) /\ p - (1 # 2) < inject_Z (Math_round p).
Proof.
  unfold Math_round.
  pose proof (Qfloor_le (p + (1 # 2))) as H1.
  pose proof (Qlt_floor (p + (1 # 2))) as H2.
  rewrite inject_Z_plus in H2. change (inject_Z 1) with 1 in H2.
  split; lra.
Qed.

Lemma Math_round_nonneg (p : Q) : 0 <= p -> (0 <= Math_round p)%Z.
Proof.
  intros H. unfold Math_round. change 0%Z with (Qfloor 0).
  apply Qfloor_resp_le. lra.
Qed.

Lemma totalLitersRounded_mono (a b : State) :
  totalLiters a <= totalLiters b -> totalLitersRounded a <= totalLitersRounded b.
Proof.
  intros H. unfold totalLitersRounded, Fdiv, Fmul, Math_round.
  apply round_mono. apply Qmult_le_compat_r; [|discriminate].
  apply inject_Z_le, Qfloor_resp_le, Qplus_le_l, round_mono.
  apply Qmult_le_compat_r; [exact H | discriminate].
Qed.

(** X8. The "Total Usage Today" figure, [Math.round(totalLiters * 100) / 100],
    is within half a hundredth of a liter of the stored total (up to a
    rounding error of at most 2^-30) while the total is at most 2^20
    liters; it is never negative then, it never goes down when a tick runs,
    and it reads 0 right after "Reset Day". *)
Theorem displayed_total (s : State) :
  is_double (totalLiters s) ->
  0 <= totalLiters s -> totalLiters s <= inject_Z (2 ^ 20) ->
  Qabs (totalLitersRounded s - totalLiters s) <= (1 # 200) + 2 ^ (-30)
  /\ 0 <= totalLitersRounded s
  /\ (forall (r : Q) (ts : string),
        random_value r ->
        totalLitersRounded s <= totalLitersRounded (tick false s r ts))
  /\ totalLitersRounded (resetDay s) = 0.
Proof.
  intros D H0 H1.
  split; [|split; [|split]].
  - unfold totalLitersRounded, Fdiv, Fmul.
    set (t := totalLiters s) in *.
    change (inject_Z (2 ^ 20)) with 1048576 in H1.
    change (inject_Z 100) with 100.
    assert (P0 : 0 <= t * 100) by lra.
    assert (P1 : t * 100 < 2 ^ 27).
    { apply Qle_lt_trans with (1048576 * 100); [lra | reflexivity]. }
    pose proof (round_error_below (t * 100) 27 P0 P1 ltac:(unfold emin; lia)) as EP.
    pose proof (round_nonneg (t * 100) P0) as Pn.
    set (p := round (t * 100)) in *.
    destruct (Math_round_bounds p) as [N1 N2].
    pose proof (Math_round_nonneg p Pn) as N0.
    apply inject_Z_le in N0. change (inject_Z 0) with 0 in N0.
    set (n := inject_Z (Math_round p)) in *.
    change (2 ^ (27 - 54)) with (1 # 134217728) in EP.
    apply Qabs_Qle_condition in EP.
    assert (Q0 : 0 <= n / 100).
    { apply Qle_shift_div_l; [reflexivity | lra]. }
    assert (Q1 : n / 100 < 2 ^ 21).
    { apply Qlt_shift_div_r; [reflexivity|].
      apply Qle_lt_trans with (1048576 * 100 + 1); [lra | reflexivity]. }
    pose proof (round_error_below (n / 100) 21 Q0 Q1 ltac:(unfold emin; lia)) as ED.
    change (2 ^ (21 - 54)) with (1 # 8589934592) in ED.
    apply Qabs_Qle_condition in ED.
    assert (Qn : n / 100 == n * (1 # 100)) by (field).
    set (q := n / 100) in *. set (d := round q) in *.
    change (2 ^ (-30)) with (1 # 1073741824).
    assert (Qa : q <= n * (1 # 100)) by (apply Qle_lteq; right; exact Qn).
    assert (Qb : n * (1 # 100) <= q)
      by (apply Qle_lteq; right; symmetry; exact Qn).
    apply Qabs_Qle_condition. split; lra.
  - unfold totalLitersRounded, Fdiv. apply round_nonneg.
    apply Qle_shift_div_l; [reflexivity|]. rewrite Qmult_0_l.
    change 0 with (inject_Z 0). apply inject_Z_le, Math_round_nonneg.
    apply round_nonneg. change (inject_Z 100) with 100. lra.
  - intros r ts R. apply totalLitersRounded_mono, tick_total_le; assumption.
  - vm_compute. reflexivity.
Qed.

Lemma displayed_total_witness :
  is_double (totalLiters flagged_example)
  /\ (0 <= totalLiters flagged_example <= inject_Z (2 ^ 20))
  /\ totalLitersRounded flagged_example = Fdiv 93 100
  /\ Qabs (totalLitersRounded flagged_example - totalLiters flagged_example)
     <= (1 # 200) + 2 ^ (-30).
Proof.
  assert (D : is_double (totalLiters flagged_example)).
  { split; [vm_compute; reflexivity | vm_compute; discriminate]. }
  assert (H0 : 0 <= totalLiters flagged_example) by (vm_compute; discriminate).
  assert (H1 : totalLiters flagged_example <= inject_Z (2 ^ 20))
    by (vm_compute; discriminate).
  split; [exact D|]. split; [split; assumption|]. split.
  - vm_compute. reflexivity.
  - exact (proj1 (displayed_total flagged_example D H0 H1)).
Defined.

End Totals.

(* ------------------------------------------------------------------ *)
(** ** What a tick adds to the total *)

Section Added.
Local Open Scope Q_scope.

(** The sum is rounded once more: the new total is within half a unit in
    the last place of the exact sum of the old total and the liters of the
    tick. *)
Lemma tick_flow_half_ulp (s : State) (flow : Z) (ts : string) :
  (0 <= flow <= 13)%Z -> 0 <= totalLiters s ->
  Qabs (totalLiters (tick_flow s flow ts) - (totalLiters s + tick_liters flow))
    <= (1 # 2) * 2 ^ ulp_exp (totalLiters s + tick_liters flow).
Proof.
  intros Hf H0. rewrite tick_flow_total. unfold Fadd.
  destruct (tick_liters_bounds flow Hf) as [X0 _].
  assert (Y0 : 0 <= totalLiters s + tick_liters flow).
  { rewrite <- (Qplus_0_r 0). apply Qplus_le_compat; assumption. }
  rewrite (round_of_nonneg _ Y0). apply round_pos_error.
Qed.

(** Up to 2^20 liters the new total is the old one plus flow/30, up to
    2^-32, and it is larger than the old one. *)
Lemma tick_flow_adds (s : State) (flow : Z) (ts : string) :
  (1 <= flow <= 13)%Z ->
  0 <= totalLiters s -> totalLiters s <= inject_Z (2 ^ 20) ->
  Qabs (totalLiters (tick_flow s flow ts)
        - (totalLiters s + inject_Z flow * (1 # 30))) <= 2 ^ (-32)
  /\ totalLiters s < totalLiters (tick_flow s flow ts).
Proof.
  intros [F1 F13] H0 H1. rewrite tick_flow_total.
  destruct (tick_liters_bounds flow ltac:(lia)) as [X0 X1].
  pose proof (tick_liters_error flow ltac:(lia)) as EX.
  apply inject_Z_le in F1. change (inject_Z 1) with 1 in F1.
  set (f := inject_Z flow) in *. set (x := tick_liters flow) in *.
  set (t := totalLiters s) in *.
  change (inject_Z (2 ^ 20)) with 1048576 in H1.
  assert (Y0 : 0 <= t + x) by lra.
  assert (Y1 : t + x < 2 ^ 21).
  { apply Qle_lt_trans with (1048576 + 1); [lra | reflexivity]. }
  pose proof (round_error_below (t + x) 21 Y0 Y1 ltac:(unfold emin; lia)) as EY.
  unfold Fadd.
  change (2 ^ (21 - 54)) with (1 # 8589934592) in EY.
  change (2 ^ (-53)) with (1 # 9007199254740992) in EX.
  change (2 ^ (-32)) with (1 # 4294967296).
  apply Qabs_Qle_condition in EX, EY.
  set (y := round (t + x)) in *.
  set (g := f * (1 # 30)) in *.
  assert (G : 1 # 30 <= g).
  { unfold g. rewrite <- (Qmult_1_l (1 # 30)) at 1.
    apply Qmult_le_compat_r; [exact F1 | discriminate]. }
  split; [apply Qabs_Qle_condition; split; lra | lra].
Qed.

(** C5, as the specification states it, fails: the sum and the product are
    rounded to binary64, so the increase of the total is in general not
    exactly [flow * (TICK_MS / 60000)].  In the state reached by the
    readings 9, 10, 9 a tick with the reading 9 raises the total by an
    amount that is neither the exact 9 * (2000 / 60000) = 9/30 nor the
    rounded product the code adds. *)
Lemma liters_increase_not_exact :
  currentFlow (tick false flagged_example draw_high clock1) = 9%Z
  /\ ~ (totalLiters (tick false flagged_example draw_high clock1)
        - totalLiters flagged_example
        == inject_Z 9 * (inject_Z TICK_MS / inject_Z 60000))
  /\ ~ (totalLiters (tick false flagged_example draw_high clock1)
        - totalLiters flagged_example
        == tick_liters 9).
Proof.
  split; [vm_compute; reflexivity|].
  split; intros H; vm_compute in H; discriminate H.
Qed.

(** C5 (amended).  Every tick replaces [totalLiters] by the binary64 sum
    of the old total and the binary64 product [flow * (TICK_MS / 60000)],
    [flow] being the value generated on that tick, and by nothing else.
    The new total is therefore the exact sum of the old total and that
    product up to half a unit in the last place; while the total is at
    most 2^20 liters the increase equals the exact
    [flow * (TICK_MS / 60000)] up to 2^-32 liters, and the total strictly
    increases. *)
Theorem liters_added_rounded (s : State) (r : Q) (ts : string) :
  random_value r -> 0 <= totalLiters s ->
  let s' := tick false s r ts in
  let flow := currentFlow s' in
  flow = gen_flow (forceLeak s) r
  /\ totalLiters s'
     = Fadd (totalLiters s)
            (Fmul (inject_Z flow) (Fdiv (inject_Z TICK_MS) (inject_Z 60000)))
  /\ Qabs (totalLiters s'
           - (totalLiters s
              + Fmul (inject_Z flow) (Fdiv (inject_Z TICK_MS) (inject_Z 60000))))
     <= (1 # 2)
        * 2 ^ ulp_exp (totalLiters s
                       + Fmul (inject_Z flow) (Fdiv (inject_Z TICK_MS) (inject_Z 60000)))
  /\ (totalLiters s <= inject_Z (2 ^ 20) ->
      Qabs (totalLiters s' - totalLiters s
            - inject_Z flow * (inject_Z TICK_MS / inject_Z 60000)) <= 2 ^ (-32)
      /\ totalLiters s < totalLiters s').
Proof.
  intros R H0 s' flow. subst s' flow. rewrite tick_live.
  cbn [currentFlow tick_flow].
  pose proof (gen_flow_range (forceLeak s) r R) as F.
  set (fl := gen_flow (forceLeak s) r) in *.
  split; [reflexivity|]. split; [reflexivity|]. split.
  - apply (tick_flow_half_ulp s fl ts); [lia | exact H0].
  - intros H1. destruct (tick_flow_adds s fl ts F H0 H1) as [E L].
    split; [|exact L].
    assert (C : inject_Z TICK_MS / inject_Z 60000 == 1 # 30) by reflexivity.
    assert (D : Fadd (totalLiters s)
                  (Fmul (inject_Z fl) (Fdiv (inject_Z TICK_MS) (inject_Z 60000)))
                - totalLiters s - inject_Z fl * (inject_Z TICK_MS / inject_Z 60000)
                == totalLiters (tick_flow s fl ts)
                   - (totalLiters s + inject_Z fl * (1 # 30))).
    { rewrite C, tick_flow_total. unfold tick_liters. ring. }
    rewrite D. exact E.
Qed.

Lemma liters_added_rounded_witness :
  random_value draw_high
  /\ (0 <= totalLiters flagged_example <= inject_Z (2 ^ 20))
  /\ Qabs (totalLiters (tick false flagged_example draw_high clock1)
           - totalLiters flagged_example
           - inject_Z 9 * (inject_Z TICK_MS / inject_Z 60000)) <= 2 ^ (-32)
  /\ totalLiters flagged_example
     < totalLiters (tick false flagged_example draw_high clock1).
Proof.
  assert (H0 : 0 <= totalLiters flagged_example) by (vm_compute; discriminate).
  assert (H1 : totalLiters flagged_example <= inject_Z (2 ^ 20))
    by (vm_compute; discriminate).
  pose proof (liters_added_rounded flagged_example draw_high clock1
                draw_high_random H0) as T.
  cbv zeta in T. destruct T as (_ & _ & _ & T).
  split; [exact draw_high_random|]. split; [split; assumption|].
  exact (T H1).
Defined.

End Added.

(* ------------------------------------------------------------------ *)
(** ** The simulation loop *)

Lemma cancel_length (id : nat) (cs : list Closure) :
  length (cancel id cs) = length cs.
Proof.
  revert id. induction cs as [|c cs IH]; intros [|id]; simpl; auto.
Qed.

Lemma nth_error_cancel_same (id : nat) (cs : list Closure) (c : Closure) :
  nth_error (cancel id cs) id = Some c -> cancelled c = true.
Proof.
  revert id. induction cs as [|c0 cs IH]; intros [|id] H; simpl in H;
    try discriminate.
  - injection H as <-. reflexivity.
  - apply (IH id H).
Qed.

Lemma nth_error_cancel_other (id j : nat) (cs : list Closure) :
  j <> id -> nth_error (cancel id cs) j = nth_error cs j.
Proof.
  revert id j. induction cs as [|c0 cs IH]; intros [|id] [|j] H; simpl;
    try reflexivity; try contradiction.
  apply IH. intros E. apply H. f_equal. exact E.
Qed.

Lemma all_cancelled_not_alive (cs : list Closure) (id : nat) :
  all_cancelled cs -> alive cs id = false.
Proof.
  intros H. unfold alive. destruct (nth_error cs id) as [c|] eqn:E; [|reflexivity].
  rewrite (H id c E). reflexivity.
Qed.

Lemma all_cancelled_no_live_timers (y : Sys) :
  all_cancelled (closures y) -> live_timers y = [].
Proof.
  intros H. unfold live_timers.
  induction (timers y) as [|id l IH]; [reflexivity|].
  simpl. rewrite (all_cancelled_not_alive _ id H). exact IH.
Qed.

Lemma stopped_inv (y : Sys) : stopped y -> loop_inv y.
Proof.
  intros (R & C & A & T). unfold loop_inv. rewrite C.
  split; [exact T|]. split; assumption.
Qed.

(** Calling the cleanup React holds stops the loop and leaves the state. *)
Lemma run_cleanup_stops (y : Sys) :
  loop_inv y -> stopped (run_cleanup y) /\ app (run_cleanup y) = app y
                /\ timers (run_cleanup y) = timers y.
Proof.
  intros [T I]. unfold run_cleanup.
  destruct (cleanup y) as [id|] eqn:C.
  - destruct I as (R & N & O & L).
    split; [|split; reflexivity].
    split; [reflexivity|]. split; [reflexivity|]. split.
    + intros j c H. cbn [closures cleanup_of] in H.
      destruct (Nat.eq_dec j id) as [->|NE].
      * apply (nth_error_cancel_same _ _ _ H).
      * rewrite (nth_error_cancel_other id j _ NE) in H. apply (O j c H NE).
    + cbn [closures timers cleanup_of]. rewrite cancel_length. exact T.
  - destruct I as (R & A).
    split; [|split; reflexivity].
    split; [exact R|]. split; [exact C|]. split; assumption.
Qed.

(** From a stopped system the effect starts one loop and takes a reading
    at once, in the mode of the state it sees. *)
Lemma effect_starts (y : Sys) (r : Q) (ts : string) :
  stopped y ->
  loop_inv (effect y r ts)
  /\ app (effect y r ts) = tick false (app y) r ts
  /\ cleanup (effect y r ts) = Some (length (closures y))
  /\ timers (effect y r ts) = timers y ++ [length (closures y)].
Proof.
  intros (R & C & A & T). unfold effect. rewrite R. unfold tick_of.
  cbn [closures]. rewrite nth_error_app2 by lia. rewrite Nat.sub_diag.
  cbn [nth_error cancelled captured].
  split; [|repeat split].
  split; cbn [closures timers cleanup app runningRef].
  - rewrite length_app. cbn [length]. apply Forall_app. split.
    + eapply Forall_impl; [|exact T]. intros id H. cbv beta in *. lia.
    + constructor; [lia | constructor].
  - split; [reflexivity|]. split; [|split].
    + rewrite nth_error_app2 by lia. rewrite Nat.sub_diag. reflexivity.
    + intros j c H NE.
      destruct (Nat.lt_ge_cases j (length (closures y))) as [Lt|Ge].
      * rewrite nth_error_app1 in H by exact Lt. apply (A j c H).
      * rewrite nth_error_app2 in H by exact Ge.
        destruct (j - length (closures y))%nat as [|k] eqn:E; [lia|].
        destruct k; discriminate H.
    + unfold live_timers. cbn [closures timers]. rewrite filter_app.
      replace (filter _ (timers y)) with (@nil nat).
      * cbn [filter app]. unfold alive.
        rewrite nth_error_app2 by lia. rewrite Nat.sub_diag. reflexivity.
      * symmetry. clear - A T.
        induction T as [|id l Hid _ IH]; [reflexivity|].
        cbn [filter]. unfold alive at 1.
        rewrite nth_error_app1 by exact Hid.
        destruct (nth_error (closures y) id) as [c|] eqn:E.
        -- rewrite (A id c E). exact IH.
        -- exact IH.
Qed.

Lemma with_app_inv (y : Sys) (s : State) :
  forceLeak s = forceLeak (app y) -> loop_inv y -> loop_inv (with_app y s).
Proof.
  intros F [T I]. split; [exact T|]. cbn [cleanup with_app].
  destruct (cleanup y) as [id|]; [|exact I].
  destruct I as (R & N & O & L). cbn [app closures runningRef with_app].
  rewrite F. repeat split; assumption.
Qed.

Lemma with_app_stopped (y : Sys) (s : State) : stopped y -> stopped (with_app y s).
Proof. intros H. exact H. Qed.

(** What a firing timer does: it runs [tick] with the [cancelled] flag of
    the closure that armed it. *)
Lemma timer_fires (y : Sys) (r : Q) (ts : string) (id : nat) (rest : list nat) :
  loop_inv y -> timers y = id :: rest ->
  exists c, nth_error (closures y) id = Some c
            /\ app (react y (TimerFires r ts)) = tick (cancelled c) (app y) r ts
            /\ timers (react y (TimerFires r ts))
               = (if cancelled c then rest else rest ++ [id])
            /\ loop_inv (react y (TimerFires r ts)).
Proof.
  intros [T I] E. cbn [react]. rewrite E. unfold tick_of. cbn [closures].
  assert (Hid : (id < length (closures y))%nat).
  { rewrite E in T. inversion T. assumption. }
  assert (Trest : Forall (fun i => (i < length (closures y))%nat) rest).
  { rewrite E in T. inversion T. assumption. }
  destruct (nth_error (closures y) id) as [c|] eqn:N.
  2: { apply nth_error_None in N. lia. }
  exists c. split; [reflexivity|].
  destruct (cancelled c) eqn:K.
  - split; [reflexivity|]. split; [reflexivity|].
    split; [exact Trest|]. cbn [cleanup closures app runningRef].
    assert (Dead : alive (closures y) id = false) by (unfold alive; rewrite N, K; reflexivity).
    destruct (cleanup y) as [cid|]; [|exact I].
    destruct I as (R & Nc & O & L). repeat split; try assumption.
    unfold live_timers in *. cbn [closures timers]. rewrite E in L.
    cbn [filter] in L. rewrite Dead in L. exact L.
  - destruct (cleanup y) as [cid|] eqn:C.
    + destruct I as (R & Nc & O & L).
      assert (id = cid).
      { destruct (Nat.eq_dec id cid) as [e|ne]; [exact e|].
        rewrite (O id c N ne) in K. discriminate. }
      subst cid. rewrite Nc in N. injection N as <-.
      cbn [captured]. split; [reflexivity|]. split; [reflexivity|].
      split; cbn [closures timers cleanup app runningRef].
      * apply Forall_app. split; [exact Trest | constructor; [exact Hid | constructor]].
      * cbn [forceLeak tick_flow]. repeat split; try assumption.
        unfold live_timers in *. cbn [closures timers]. rewrite E in L.
        cbn [filter] in L.
        assert (Al : alive (closures y) id = true) by (unfold alive; rewrite Nc; reflexivity).
        rewrite Al in L. injection L as L.
        rewrite filter_app, L. cbn [filter app]. rewrite Al. reflexivity.
    + destruct I as (R & A). rewrite (A id c N) in K. discriminate.
Qed.

Lemma run_cleanup_with_app (y : Sys) (s : State) :
  run_cleanup (with_app y s) = with_app (run_cleanup y) s.
Proof.
  unfold run_cleanup. cbn [cleanup with_app].
  destruct (cleanup y); reflexivity.
Qed.

(** A click on the simulation button: the flag is flipped, the running
    loop is cancelled and a new one takes a reading at once in the new
    mode. *)
Lemma toggle_restarts (y : Sys) (r : Q) (ts : string) :
  loop_inv y ->
  loop_inv (react y (ClickToggle r ts))
  /\ app (react y (ClickToggle r ts)) = tick false (toggleForceLeak (app y)) r ts
  /\ timers (react y (ClickToggle r ts)) = timers y ++ [length (closures y)].
Proof.
  intros I. cbn [react]. rewrite run_cleanup_with_app.
  destruct (run_cleanup_stops y I) as (S & _ & Tm).
  pose proof (with_app_stopped _ (toggleForceLeak (app y)) S) as S'.
  destruct (effect_starts _ r ts S') as (I' & A & _ & T).
  split; [exact I'|]. split; [exact A|].
  rewrite T. cbn [timers closures with_app]. rewrite Tm.
  f_equal. f_equal. unfold run_cleanup.
  destruct (cleanup y); [apply cancel_length | reflexivity].
Qed.

Lemma react_inv (y : Sys) (e : Event) : loop_inv y -> loop_inv (react y e).
Proof.
  intros I. destruct e as [r ts|r ts|r ts| | |].
  - destruct (timers y) as [|id rest] eqn:E.
    + cbn [react]. rewrite E. exact I.
    + destruct (timer_fires y r ts id rest I E) as (c & _ & _ & _ & H). exact H.
  - apply (toggle_restarts y r ts I).
  - cbn [react]. destruct (run_cleanup_stops y I) as (S & _ & _).
    apply (effect_starts _ r ts S).
  - cbn [react]. apply with_app_inv; [reflexivity | exact I].
  - cbn [react]. apply with_app_inv; [reflexivity | exact I].
  - cbn [react]. apply stopped_inv. apply (run_cleanup_stops y I).
Qed.

Lemma boot_stopped : stopped boot.
Proof.
  split; [reflexivity|]. split; [reflexivity|]. split; [|constructor].
  intros j c H. destruct j; discriminate H.
Qed.

Lemma play_inv (events : list Event) (y : Sys) :
  loop_inv y -> loop_inv (play y events).
Proof.
  revert y. induction events as [|e events IH]; intros y I; [exact I|].
  apply IH, react_inv, I.
Qed.

Lemma mount_inv (r : Q) (ts : string) : loop_inv (mount r ts).
Proof. apply (effect_starts boot r ts boot_stopped). Qed.

(** X9. However the mounted component is driven (timer firings, clicks,
    development-mode remounts, unmount), at most one loop runs: at most one
    closure is not cancelled, at most one pending timeout will run a tick,
    every pending timeout names a closure that exists, and [runningRef] is
    set exactly while React holds the cleanup of the running loop. *)
Theorem single_loop (r0 : Q) (ts0 : string) (events : list Event) :
  let y := play (mount r0 ts0) events in
  loop_inv y
  /\ (length (live_timers y) <= 1)%nat
  /\ (forall i j : nat,
        alive (closures y) i = true -> alive (closures y) j = true -> i = j)
  /\ (runningRef y = true <-> cleanup y <> None).
Proof.
  intros y. assert (I : loop_inv y) by (apply play_inv, mount_inv).
  split; [exact I|]. destruct I as [T I].
  destruct (cleanup y) as [id|] eqn:C.
  - destruct I as (R & N & O & L). split; [rewrite L; cbn [length]; lia|]. split.
    + assert (U : forall i, alive (closures y) i = true -> i = id).
      { intros i Hi. unfold alive in Hi.
        destruct (nth_error (closures y) i) as [c|] eqn:E; [|discriminate].
        destruct (Nat.eq_dec i id) as [e|ne]; [exact e|].
        rewrite (O i c E ne) in Hi. discriminate. }
      intros i j Hi Hj. rewrite (U i Hi), (U j Hj). reflexivity.
    + split; [discriminate | intros _; exact R].
  - destruct I as (R & A). split.
    + rewrite (all_cancelled_no_live_timers y A). cbn [length]. lia.
    + split.
      * intros i j Hi. rewrite (all_cancelled_not_alive _ i A) in Hi. discriminate.
      * split; [congruence | intros H; contradiction H; reflexivity].
Qed.

(** X10. When a pending timeout fires, the state changes exactly as by
    [tick] with the [cancelled] flag of the closure that armed it: a live
    closure runs the tick of the current state (with the current
    [forceLeak]) and re-arms one timeout, a cancelled one changes nothing
    and arms nothing.  With nothing pending nothing happens. *)
Theorem timer_runs_tick (r0 : Q) (ts0 : string) (events : list Event)
    (r : Q) (ts : string) :
  let y := play (mount r0 ts0) events in
  let y' := react y (TimerFires r ts) in
  match timers y with
  | [] => y' = y
  | id :: rest =>
      if alive (closures y) id
      then app y' = tick false (app y) r ts /\ timers y' = rest ++ [id]
      else app y' = tick true (app y) r ts /\ app y' = app y /\ timers y' = rest
  end.
Proof.
  intros y y'. assert (I : loop_inv y) by (apply play_inv, mount_inv).
  destruct (timers y) as [|id rest] eqn:E.
  - subst y'. cbn [react]. rewrite E. reflexivity.
  - destruct (timer_fires y r ts id rest I E) as (c & N & A & T & _).
    unfold alive. rewrite N. fold y' in A, T.
    destruct (cancelled c); cbn [negb]; rewrite A, T; repeat split.
Qed.

(** X11. A click on the simulation button flips [forceLeak] and, because
    the effect is run again, takes a reading at once, outside the two
    second cadence, in the new mode: the state after the click is that of
    a tick on the state with the flag flipped.  So the first reading after
    "Simulate Leak" is already between 11 and 13, and the first one after
    "Stop Leak Simulation" between 1 and 12. *)
Theorem toggle_reads_at_once (r0 : Q) (ts0 : string) (events : list Event)
    (r : Q) (ts : string) :
  random_value r ->
  let y := play (mount r0 ts0) events in
  let y' := react y (ClickToggle r ts) in
  app y' = tick false (toggleForceLeak (app y)) r ts
  /\ forceLeak (app y') = negb (forceLeak (app y))
  /\ series (app y') = push_point (series (app y)) (currentFlow (app y'))
  /\ (forceLeak (app y) = false -> 11 <= currentFlow (app y') <= 13)
  /\ (forceLeak (app y) = true -> 1 <= currentFlow (app y') <= 12).
Proof.
  intros R y y'. assert (I : loop_inv y) by (apply play_inv, mount_inv).
  destruct (toggle_restarts y r ts I) as (_ & A & _). fold y' in A.
  split; [exact A|]. rewrite A, tick_live.
  cbn [forceLeak series currentFlow tick_flow toggleForceLeak].
  split; [reflexivity|]. split; [reflexivity|]. split; intros F; rewrite F.
  - apply gen_flow_forced, R.
  - apply gen_flow_normal, R.
Qed.

Lemma toggle_reads_at_once_witness :
  let y := play (mount draw_low clock1) [TimerFires draw_high clock2] in
  random_value draw_low
  /\ forceLeak (app y) = false
  /\ series (app y) = [5; 9]
  /\ series (app (react y (ClickToggle draw_low clock3))) = [5; 9; 12].
Proof.
  intros y.
  pose proof (toggle_reads_at_once draw_low clock1 [TimerFires draw_high clock2]
                draw_low clock3 draw_low_random) as H.
  cbv zeta in H. destruct H as (A & _).
  split; [exact draw_low_random|]. split; [reflexivity|]. split; [reflexivity|].
  unfold y. rewrite A. vm_compute. reflexivity.
Defined.

Lemma effect_sets_running (y : Sys) (r : Q) (ts : string) :
  runningRef (effect y r ts) = true.
Proof.
  unfold effect. destruct (runningRef y) eqn:R; [reflexivity|].
  unfold tick_of. cbn [closures].
  destruct (nth_error _ _) as [c|]; [destruct (cancelled c)|]; reflexivity.
Qed.

(** X12. The guard on [runningRef]: when the effect is run while a loop is
    running it creates no closure, takes no reading and arms no timeout;
    in particular a second run right after a first changes nothing but the
    cleanup React holds, which is none, the guarded run returning
    nothing. *)
Theorem start_is_guarded (y : Sys) (r r' : Q) (ts ts' : string) :
  (runningRef y = true ->
     app (effect y r ts) = app y
     /\ closures (effect y r ts) = closures y
     /\ timers (effect y r ts) = timers y
     /\ cleanup (effect y r ts) = None)
  /\ (let y1 := effect y r ts in
      let y2 := effect y1 r' ts' in
      app y2 = app y1 /\ closures y2 = closures y1 /\ timers y2 = timers y1
      /\ runningRef y2 = true /\ cleanup y2 = None).
Proof.
  assert (G : forall z a b, runningRef z = true ->
                app (effect z a b) = app z
                /\ closures (effect z a b) = closures z
                /\ timers (effect z a b) = timers z
                /\ cleanup (effect z a b) = None).
  { intros z a b R. unfold effect. rewrite R. repeat split. }
  split; [apply G|].
  intros y1 y2. pose proof (effect_sets_running y r ts) as R1. fold y1 in R1.
  destruct (G y1 r' ts' R1) as (A & C & T & K). fold y2 in A, C, T, K.
  repeat split; try assumption. apply effect_sets_running.
Qed.

Lemma start_is_guarded_witness :
  runningRef (mount draw_low clock1) = true
  /\ series (app (effect (mount draw_low clock1) draw_high clock2)) = [5]
  /\ timers (effect (mount draw_low clock1) draw_high clock2) = [0%nat].
Proof.
  assert (R : runningRef (mount draw_low clock1) = true) by reflexivity.
  destruct (proj1 (start_is_guarded (mount draw_low clock1) draw_high draw_high
                     clock2 clock2) R) as (A & _ & T & _).
  split; [exact R|]. split.
  - rewrite A. vm_compute. reflexivity.
  - rewrite T. reflexivity.
Defined.

Lemma stopped_fire (y : Sys) (r : Q) (ts : string) :
  stopped y ->
  stopped (react y (TimerFires r ts))
  /\ app (react y (TimerFires r ts)) = app y
  /\ timers (react y (TimerFires r ts)) = tl (timers y).
Proof.
  intros S. pose proof S as (R & C & A & T).
  destruct (timers y) as [|id rest] eqn:E.
  - cbn [react]. rewrite E. split; [exact S|]. split; [reflexivity | exact E].
  - destruct (timer_fires y r ts id rest (stopped_inv y S) E) as (c & N & Ap & Tm & _).
    rewrite (A id c N) in Ap, Tm. cbn [tl]. split; [|split; assumption].
    cbn [react]. rewrite E. unfold tick_of. cbn [closures]. rewrite N, (A id c N).
    split; [exact R|]. split; [exact C|]. split; [exact A|].
    cbn [closures timers]. inversion T. assumption.
Qed.

Lemma stopped_fire_all (draws : list (Q * string)) (y : Sys) :
  stopped y ->
  app (fire_all y draws) = app y
  /\ timers (fire_all y draws) = skipn (length draws) (timers y).
Proof.
  revert y. induction draws as [|d draws IH]; intros y S; [split; reflexivity|].
  destruct (stopped_fire y (fst d) (snd d) S) as (S' & A & T).
  destruct (IH _ S') as (A' & T').
  change (fire_all y (d :: draws))
    with (fire_all (react y (TimerFires (fst d) (snd d))) draws).
  rewrite A', T', A, T. split; [reflexivity|].
  destruct (timers y); [destruct (length draws)|]; reflexivity.
Qed.

(** X13. After unmount the timeouts still pending fire without effect: the
    state is never changed again, no timeout is armed again, and each
    firing removes one pending timeout until none is left. *)
Theorem unmount_ends_loop (r0 : Q) (ts0 : string) (events : list Event)
    (draws : list (Q * string)) :
  let y := react (play (mount r0 ts0) events) Unmount in
  app y = app (play (mount r0 ts0) events)
  /\ app (fire_all y draws) = app y
  /\ timers (fire_all y draws) = skipn (length draws) (timers y)
  /\ (length (timers y) <= length draws -> timers (fire_all y draws) = [])%nat.
Proof.
  intros y.
  assert (I : loop_inv (play (mount r0 ts0) events)) by (apply play_inv, mount_inv).
  destruct (run_cleanup_stops _ I) as (S & A & _).
  change (run_cleanup (play (mount r0 ts0) events)) with y in S, A.
  destruct (stopped_fire_all draws y S) as (A' & T').
  split; [exact A|]. split; [exact A'|]. split; [exact T'|].
  intros L. rewrite T'. apply skipn_all2, L.
Qed.

Lemma unmount_ends_loop_witness :
  let y := react (play (mount draw_low clock1) [ClickToggle draw_high clock2]) Unmount in
  timers y = [0%nat; 1%nat]
  /\ (length (timers y) <= 2)%nat
  /\ timers (fire_all y [(draw_high, clock3); (draw_low, clock3)]) = []
  /\ series (app (fire_all y [(draw_high, clock3); (draw_low, clock3)])) = [5; 13].
Proof.
  intros y.
  pose proof (unmount_ends_loop draw_low clock1 [ClickToggle draw_high clock2]
                [(draw_high, clock3); (draw_low, clock3)]) as H.
  cbv zeta in H. destruct H as (_ & A & _ & E).
  assert (L : (length (timers y) <= 2)%nat) by (vm_compute; lia).
  split; [reflexivity|]. split; [exact L|]. split.
  - exact (E L).
  - unfold y. rewrite A. vm_compute. reflexivity.
Defined.

(* ------------------------------------------------------------------ *)
(** ** Alerts without a forced leak *)

Lemma run_ticks_as_flows (draws : list (Q * string)) (s : State) :
  run_ticks s draws
  = run_flows s (map (fun d => (gen_flow (forceLeak s) (fst d), snd d)) draws).
Proof.
  revert s. induction draws as [|d draws IH]; intros s; [reflexivity|].
  change (run_ticks s (d :: draws))
    with (run_ticks (tick false s (fst d) (snd d)) draws).
  rewrite IH. reflexivity.
Qed.

Lemma high_gt (x : Z) : high x = true <-> x > LEAK_THRESHOLD.
Proof.
  unfold high. destruct (Z.gtb_spec x LEAK_THRESHOLD) as [G|G]; split; intros H;
    try reflexivity; try discriminate; lia.
Qed.

Lemma draw_run_high_run (draws : list (Q * string)) :
  Forall (fun d => random_value (fst d)) draws ->
  (has_high_run (map (fun d => gen_flow false (fst d)) draws) <-> has_draw_run draws).
Proof.
  intros F. split.
  - intros (pre & post & a & b & c & E & Ha & Hb & Hc).
    apply map_eq_app in E. destruct E as (l1 & l2 & -> & _ & E2).
    destruct l2 as [|d1 [|d2 [|d3 post']]]; try discriminate E2.
    cbn [map app] in E2. injection E2 as <- <- <- _.
    apply Forall_app in F. destruct F as [_ F].
    inversion F as [|? ? R1 F1]; subst. inversion F1 as [|? ? R2 F2]; subst.
    inversion F2 as [|? ? R3 _]; subst.
    exists l1, post', d1, d2, d3. split; [reflexivity|].
    repeat split; apply gen_flow_high_iff; try assumption; apply high_gt; assumption.
  - intros (pre & post & d1 & d2 & d3 & -> & C1 & C2 & C3).
    apply Forall_app in F. destruct F as [_ F].
    inversion F as [|? ? R1 F1]; subst. inversion F1 as [|? ? R2 F2]; subst.
    inversion F2 as [|? ? R3 _]; subst.
    exists (map (fun d => gen_flow false (fst d)) pre),
           (map (fun d => gen_flow false (fst d)) post),
           (gen_flow false (fst d1)), (gen_flow false (fst d2)),
           (gen_flow false (fst d3)).
    split; [rewrite map_app; reflexivity|].
    repeat split; apply high_gt, gen_flow_high_iff; assumption.
Qed.

(** X14. Without the forced simulation the alert can still go up: from a
    fresh detector in normal mode it is raised after a sequence of ticks
    exactly when [Math.random()] returned at least 0.6666666666666666
    three times in a row somewhere in the sequence. *)
Theorem chance_alert (s : State) (draws : list (Q * string)) :
  forceLeak s = false -> highCount s = 0 -> leakDetected s = false ->
  Forall (fun d => random_value (fst d)) draws ->
  (leakDetected (run_ticks s draws) = true <-> has_draw_run draws).
Proof.
  intros Hm Hc Hf F. rewrite run_ticks_as_flows, Hm.
  rewrite (run_flows_flag _ s Hc Hf), map_map. cbn [fst].
  apply draw_run_high_run, F.
Qed.

Lemma chance_alert_witness :
  let draws := [(draw_low, clock1); (draw_cut, clock1); (draw_high, clock2);
                (draw_max, clock3); (0%Q, clock1)] in
  (forceLeak init = false /\ highCount init = 0 /\ leakDetected init = false)
  /\ Forall (fun d => random_value (fst d)) draws
  /\ has_draw_run draws
  /\ leakDetected (run_ticks init draws) = true.
Proof.
  intros draws.
  assert (Rc : random_value draw_cut).
  { repeat split; try (vm_compute; reflexivity); vm_compute; discriminate. }
  assert (R0 : random_value 0%Q).
  { split; [apply zero_is_double|]. split; [apply Qle_refl | reflexivity]. }
  assert (F : Forall (fun d => random_value (fst d)) draws).
  { repeat (apply Forall_cons || apply Forall_nil); cbn [fst];
      first [exact draw_low_random | exact Rc | exact draw_high_random
            | exact draw_max_random | exact R0]. }
  assert (D : has_draw_run draws).
  { exists [(draw_low, clock1)], [(0%Q, clock1)],
           (draw_cut, clock1), (draw_high, clock2), (draw_max, clock3).
    split; [reflexivity|]. repeat split; vm_compute; discriminate. }
  split; [repeat split|]. split; [exact F|]. split; [exact D|].
  exact (proj2 (chance_alert init draws eq_refl eq_refl eq_refl F) D).
Defined.

(* ------------------------------------------------------------------ *)
(** ** The running component and the operations on its state *)

Lemma play_snoc (y : Sys) (events : list Event) (e : Event) :
  play y (events ++ [e]) = react (play y events) e.
Proof. unfold play. rewrite fold_left_app. reflexivity. Qed.

Lemma run_app (s : State) (ops1 ops2 : list Op) :
  run s (ops1 ++ ops2) = run (run s ops1) ops2.
Proof. unfold run. apply fold_left_app. Qed.

(** One event is a short run of operations on the state. *)
Lemma react_as_ops (y : Sys) (e : Event) :
  loop_inv y ->
  exists ops : list Op,
    app (react y e) = run (app y) ops /\ (valid_event e -> Forall valid_op ops).
Proof.
  intros Inv. destruct e as [r ts|r ts|r ts| | |].
  - destruct (timers y) as [|id rest] eqn:E.
    + exists []. cbn [react]. rewrite E. split; [reflexivity | constructor].
    + destruct (timer_fires y r ts id rest Inv E) as (c & _ & A & _).
      destruct (cancelled c).
      * exists []. split; [exact A | constructor].
      * exists [OpTick r ts]. split; [exact A|].
        intros V. constructor; [exact V | constructor].
  - destruct (toggle_restarts y r ts Inv) as (_ & A & _).
    exists [OpToggle; OpTick r ts]. split; [exact A|].
    intros V. constructor; [exact I|]. constructor; [exact V | constructor].
  - cbn [react]. destruct (run_cleanup_stops y Inv) as (S & A & _).
    destruct (effect_starts _ r ts S) as (_ & A' & _).
    exists [OpTick r ts]. split; [rewrite A', A; reflexivity|].
    intros V. constructor; [exact V | constructor].
  - exists [OpAcknowledge]. split; [reflexivity|].
    intros _. constructor; [exact I | constructor].
  - exists [OpResetDay]. split; [reflexivity|].
    intros _. constructor; [exact I | constructor].
  - exists []. split; [|constructor]. apply (run_cleanup_stops y Inv).
Qed.

Lemma play_as_ops (r0 : Q) (ts0 : string) (events : list Event) :
  exists ops : list Op,
    app (play (mount r0 ts0) events) = run init ops
    /\ (random_value r0 -> Forall valid_event events -> Forall valid_op ops).
Proof.
  induction events as [|e events IH] using rev_ind.
  - exists [OpTick r0 ts0]. split.
    + apply (effect_starts boot r0 ts0 boot_stopped).
    + intros V _. constructor; [exact V | constructor].
  - destruct IH as (ops & A & V).
    assert (I : loop_inv (play (mount r0 ts0) events)) by (apply play_inv, mount_inv).
    destruct (react_as_ops _ e I) as (ops' & A' & V').
    exists (ops ++ ops'). rewrite play_snoc, A', A, run_app. split; [reflexivity|].
    intros R F. apply Forall_app in F. destruct F as [F Fe].
    apply Forall_app. split; [exact (V R F)|].
    apply V'. inversion Fe. assumption.
Qed.

(** X15. Whatever happens to the mounted component, its state is one that
    a sequence of operations (ticks that read the current [forceLeak], the
    three buttons) reaches from the state at mount.  So what holds after
    every sequence of operations holds in the running component: the two
    chart sequences line up and hold at most [MAX_POINTS] entries, and,
    [Math.random()] returning doubles in [0, 1), every plotted value is in
    range and the total is a finite double. *)
Theorem loop_runs_operations (r0 : Q) (ts0 : string) (events : list Event) :
  let s := app (play (mount r0 ts0) events) in
  (exists ops : list Op,
      s = run init ops
      /\ (random_value r0 -> Forall valid_event events -> Forall valid_op ops))
  /\ aligned s
  /\ bounded s
  /\ (random_value r0 -> Forall valid_event events ->
      plotted_in_range s /\ is_double (totalLiters s)).
Proof.
  intros s. destruct (play_as_ops r0 ts0 events) as (ops & A & V). fold s in A.
  split; [exists ops; split; assumption|].
  rewrite A. split; [apply run_aligned; reflexivity|].
  split; [apply run_bounded, init_bounded|].
  intros R F. pose proof (V R F) as Vo. split.
  - apply run_plotted; [exact Vo | constructor].
  - apply run_total_double; [exact Vo | apply zero_is_double].
Qed.

Lemma loop_runs_operations_witness :
  let events := [TimerFires draw_high clock2; ClickToggle draw_max clock3;
                 ClickAcknowledge; TimerFires draw_low clock1] in
  random_value draw_low
  /\ Forall valid_event events
  /\ series (app (play (mount draw_low clock1) events)) = [5; 9; 13]
  /\ plotted_in_range (app (play (mount draw_low clock1) events)).
Proof.
  intros events.
  assert (F : Forall valid_event events).
  { repeat (apply Forall_cons || apply Forall_nil); cbn [valid_event];
      first [exact draw_high_random | exact draw_max_random
            | exact draw_low_random | exact I]. }
  split; [exact draw_low_random|]. split; [exact F|]. split; [vm_compute; reflexivity|].
  pose proof (loop_runs_operations draw_low clock1 events) as H.
  cbv zeta in H. destruct H as (_ & _ & _ & H).
  exact (proj1 (H draw_low_random F)).
Defined.
